(** * ASHWAM evaluation harness: matcher, document scorer, corpus aggregator

    A shallow embedding of [scorer.py] and [ashwam_types.py], and of the loop
    of [main.py] that scores a corpus.

    Conventions of the embedding:
    - a Python [str] is a [string] whose characters are code points below 256;
    - a Python [int] is a [Z]; [len] yields [Z.of_nat] of a list length;
    - a Python [float] is read in two ways. In the first part of the program
      it is the rational it stands for ([Q]); equalities between computed
      ratios are then stated with [==] (equality of rationals), and hold in
      exact arithmetic. The module [Binary64] embeds the scorer a second
      time with IEEE 754 doubles, rounding and [OverflowError] included;
      what depends on rounding is stated there;
    - an exception is a value of [PyError] carried by the [result] monad, so
      that "does not raise" is a statement and not an assumption;
    - a [set] is a [gset], a [dict] with string keys is a [gmap].

    The file has three parts: the program, the notions in which the
    specification talks about it, and the properties. *)

From Stdlib Require Import ZArith QArith Qfield Lia Lqa String Ascii List.
From Stdlib Require Import Sorting.Permutation Sorting.Sorted.
From Stdlib Require Floats.SpecFloat.
From stdpp Require Import base option list sorting gmap sets strings.

(** * The program *)

(** ** Python values: exceptions, loops, numbers, strings *)

(** The exceptions of the scorer; [OverflowError] arises in double
    arithmetic only. *)
Inductive PyError : Set :=
| ZeroDivisionError
| IndexError
| OverflowError.

Inductive result (A : Type) : Type :=
| Ok (a : A)
| Raise (e : PyError).
Arguments Ok {A} a.
Arguments Raise {A} e.

#[global] Instance result_ret : MRet result := fun A a => Ok a.
#[global] Instance result_bind : MBind result := fun A B f m =>
  match m with
  | Ok a => f a
  | Raise e => Raise e
  end.

(** [for x in l: body], the loop state threaded through the body. *)
Fixpoint for_loop {A S : Type} (l : list A) (body : S -> A -> result S)
    (s : S) : result S :=
  match l with
  | [] => Ok s
  | x :: l' => s' ← body s x; for_loop l' body s'
  end.

(** [enumerate(l)] *)
Fixpoint enumerate_from {A : Type} (n : nat) (l : list A) : list (nat * A) :=
  match l with
  | [] => []
  | x :: l' => (n, x) :: enumerate_from (S n) l'
  end.
Definition enumerate {A : Type} (l : list A) : list (nat * A) :=
  enumerate_from 0 l.

(** [l[i]] for a non-negative index *)
Definition getitem {A : Type} (l : list A) (i : nat) : result A :=
  match l !! i with
  | Some x => Ok x
  | None => Raise IndexError
  end.

(** [a < b] on floats *)
Definition Qlt_bool (a b : Q) : bool :=
  (Qnum a * QDen b <? Qnum b * QDen a)%Z.

(** [a / b] on two ints (true division) *)
Definition int_truediv (a b : Z) : result Q :=
  if (b =? 0)%Z then Raise ZeroDivisionError
  else Ok (inject_Z a / inject_Z b)%Q.

(** [a / b] on two floats *)
Definition float_truediv (a b : Q) : result Q :=
  if Qeq_bool b 0 then Raise ZeroDivisionError else Ok (a / b)%Q.

(** [a / b] with [a] a float and [b] an int *)
Definition float_int_truediv (a : Q) (b : Z) : result Q :=
  float_truediv a (inject_Z b).

(** [len(l)] *)
Definition len {A : Type} (l : list A) : Z := Z.of_nat (length l).

(** [ord(c)] *)
Definition code (c : ascii) : nat := nat_of_ascii c.

(** [c.isspace()] for a code point below 256 *)
Definition isspace (c : ascii) : bool :=
  let n := code c in
  (((9 <=? n) && (n <=? 13)) || ((28 <=? n) && (n <=? 32))
   || (n =? 133) || (n =? 160))%nat.

(** [c.lower()] for a code point below 256 *)
Definition lower_char (c : ascii) : ascii :=
  let n := code c in
  if (((65 <=? n) && (n <=? 90))
      || ((192 <=? n) && (n <=? 222) && negb (n =? 215)))%nat
  then ascii_of_nat (n + 32) else c.

(** [s.lower()] *)
Fixpoint lower (s : string) : string :=
  match s with
  | EmptyString => EmptyString
  | String c s' => String (lower_char c) (lower s')
  end.

(** [s.split()]: maximal runs of non-whitespace characters. [cur] is the
    token being read. *)
Fixpoint split_from (cur : string) (s : string) : list string :=
  match s with
  | EmptyString =>
      match cur with EmptyString => [] | _ => [cur] end
  | String c s' =>
      if isspace c then
        match cur with
        | EmptyString => split_from EmptyString s'
        | _ => cur :: split_from EmptyString s'
        end
      else split_from (cur +:+ String c EmptyString) s'
  end.
Definition split (s : string) : list string := split_from EmptyString s.

(** [t.startswith(s)] *)
Fixpoint startswith (s t : string) : bool :=
  match s, t with
  | EmptyString, _ => true
  | String _ _, EmptyString => false
  | String a s', String b t' => Ascii.eqb a b && startswith s' t'
  end.

(** [s in t] on strings: [s] occurs in [t] as a contiguous substring. *)
Fixpoint py_in (s t : string) : bool :=
  startswith s t ||
  match t with
  | EmptyString => false
  | String _ t' => py_in s t'
  end.

(** ** ashwam_types.py *)

Record SemanticObject : Set := {
  domain : string;
  evidence_span : string;
  polarity : string;
  intensity_bucket : string;
  arousal_bucket : string;
  time_bucket : string
}.

Definition to_dict (self : SemanticObject) : gmap string string :=
  let obj_dict : gmap string string :=
    <["time_bucket" := time_bucket self]>
      (<["polarity" := polarity self]>
        (<["evidence_span" := evidence_span self]>
          (<["domain" := domain self]> ∅))) in
  if String.eqb (domain self) "emotion"
  then <["arousal_bucket" := arousal_bucket self]> obj_dict
  else <["intensity_bucket" := intensity_bucket self]> obj_dict.

(** ** scorer.py *)

Definition token_set (span : string) : gset string :=
  list_to_set (split (lower span)).

Definition calculate_jaccard_similarity (span1 span2 : string) : result Q :=
  let set1 := token_set span1 in
  let set2 := token_set span2 in
  if bool_decide (set1 = ∅) && bool_decide (set2 = ∅) then Ok 1%Q
  else
    let intersection := Z.of_nat (size (set1 ∩ set2)) in
    let union := Z.of_nat (size (set1 ∪ set2)) in
    if negb (union =? 0)%Z then int_truediv intersection union else Ok 0%Q.

Record Scorer : Set := { jaccard_threshold : Q }.

(** [Scorer()] with the default argument of [__init__] *)
Definition Scorer_default : Scorer := {| jaccard_threshold := (1 # 2)%Q |}.

(** An entry of [potential_matches]: [(jaccard_score, pred_idx, gold_idx)] *)
Definition PotentialMatch : Type := (Q * nat * nat)%type.

Definition pm_score (m : PotentialMatch) : Q := fst (fst m).
Definition pm_pred (m : PotentialMatch) : nat := snd (fst m).
Definition pm_gold (m : PotentialMatch) : nat := snd m.

(** [l.sort(key=key, reverse=True)]: Python's sort is stable, also with
    [reverse=True], so the result is the one arrangement of [l] in
    non-increasing key order that keeps equal keys in their original order;
    insertion from the right computes it. *)
Fixpoint insert_reverse {A : Type} (key : A -> Q) (x : A) (l : list A)
    : list A :=
  match l with
  | [] => [x]
  | y :: l' =>
      if Qlt_bool (key x) (key y) then y :: insert_reverse key x l'
      else x :: y :: l'
  end.

Fixpoint sort_reverse {A : Type} (key : A -> Q) (l : list A) : list A :=
  match l with
  | [] => []
  | x :: l' => insert_reverse key x (sort_reverse key l')
  end.

(** The two nested [for] loops that fill [potential_matches]. *)
Definition collect_potential_matches (self : Scorer)
    (unmatched_gold unmatched_predicted : list SemanticObject)
    : result (list PotentialMatch) :=
  for_loop (enumerate unmatched_gold)
    (fun potential_matches '(i, gold_obj) =>
       for_loop (enumerate unmatched_predicted)
         (fun potential_matches '(j, pred_obj) =>
            if String.eqb (domain gold_obj) (domain pred_obj) then
              jaccard ← calculate_jaccard_similarity
                          (evidence_span gold_obj) (evidence_span pred_obj);
              if Qle_bool (jaccard_threshold self) jaccard
              then Ok (potential_matches ++ [(jaccard, j, i)])
              else Ok potential_matches
            else Ok potential_matches)
         potential_matches)
    [].

(** The state of the greedy loop. *)
Record MatchState : Type := {
  matched_pairs : list (SemanticObject * SemanticObject);
  matched_predicted_indices : gset nat;
  matched_gold_indices : gset nat
}.

(** The body of the greedy loop. *)
Definition greedy_step
    (unmatched_gold unmatched_predicted : list SemanticObject)
    (st : MatchState) (m : PotentialMatch) : result MatchState :=
  let '(jaccard, pred_idx, gold_idx) := m in
  if bool_decide (pred_idx ∉ matched_predicted_indices st)
     && bool_decide (gold_idx ∉ matched_gold_indices st)
  then
    g ← getitem unmatched_gold gold_idx;
    p ← getitem unmatched_predicted pred_idx;
    Ok {| matched_pairs := matched_pairs st ++ [(g, p)];
          matched_predicted_indices :=
            matched_predicted_indices st ∪ {[pred_idx]};
          matched_gold_indices := matched_gold_indices st ∪ {[gold_idx]} |}
  else Ok st.

(** [[x for i, x in enumerate(l) if i not in s]] *)
Definition not_matched (l : list SemanticObject) (s : gset nat)
    : list SemanticObject :=
  snd <$> filter (fun ix => fst ix ∉ s) (enumerate l).

(** The lists [remaining_predicted_indices] and [remaining_gold_indices] of
    the source are built and never read; they are left out. *)
Definition _match_objects (self : Scorer)
    (gold_objects predicted_objects : list SemanticObject)
    : result (list (SemanticObject * SemanticObject)
              * list SemanticObject * list SemanticObject) :=
  let unmatched_predicted := predicted_objects in
  let unmatched_gold := gold_objects in
  potential_matches ←
    collect_potential_matches self unmatched_gold unmatched_predicted;
  let potential_matches := sort_reverse pm_score potential_matches in
  st ← for_loop potential_matches
         (greedy_step unmatched_gold unmatched_predicted)
         {| matched_pairs := [];
            matched_predicted_indices := ∅;
            matched_gold_indices := ∅ |};
  let fps := not_matched unmatched_predicted (matched_predicted_indices st) in
  let fns := not_matched unmatched_gold (matched_gold_indices st) in
  Ok (matched_pairs st, fps, fns).

(** The dict returned by [score_journal]. *)
Record JournalScore : Type := {
  tp : Z;
  fp : Z;
  fn : Z;
  precision : Q;
  recall : Q;
  f1 : Q;
  polarity_accuracy : Q;
  bucket_accuracy : Q;
  evidence_coverage_rate : Q;
  score_matched_pairs : list (gmap string string * gmap string string);
  false_positives : list (gmap string string);
  false_negatives : list (gmap string string)
}.

(** The counting loops of [score_journal]. *)
Definition count_correct_polarity
    (pairs : list (SemanticObject * SemanticObject)) : Z :=
  foldl (fun correct_polarity_count '(gold_obj, pred_obj) =>
           if String.eqb (polarity gold_obj) (polarity pred_obj)
           then (correct_polarity_count + 1)%Z
           else correct_polarity_count)
        0%Z pairs.

Definition count_correct_bucket
    (pairs : list (SemanticObject * SemanticObject)) : Z :=
  foldl (fun correct_bucket_count '(gold_obj, pred_obj) =>
           if String.eqb (domain gold_obj) "emotion" then
             if String.eqb (arousal_bucket gold_obj) (arousal_bucket pred_obj)
             then (correct_bucket_count + 1)%Z else correct_bucket_count
           else
             if String.eqb (intensity_bucket gold_obj)
                           (intensity_bucket pred_obj)
             then (correct_bucket_count + 1)%Z else correct_bucket_count)
        0%Z pairs.

Definition count_valid_evidence_spans (journal_text : string)
    (predicted_objects : list SemanticObject) : Z :=
  foldl (fun valid_evidence_spans pred_obj =>
           if py_in (evidence_span pred_obj) journal_text
           then (valid_evidence_spans + 1)%Z else valid_evidence_spans)
        0%Z predicted_objects.

Definition score_journal (self : Scorer) (journal_text : string)
    (gold_objects predicted_objects : list SemanticObject)
    : result JournalScore :=
  '(matched_pairs, fps, fns) ←
    _match_objects self gold_objects predicted_objects;
  let tp_count := len matched_pairs in
  let fp_count := len fps in
  let fn_count := len fns in
  precision ← (if (0 <? tp_count + fp_count)%Z
               then int_truediv tp_count (tp_count + fp_count)
               else Ok 0%Q);
  recall ← (if (0 <? tp_count + fn_count)%Z
            then int_truediv tp_count (tp_count + fn_count)
            else Ok 0%Q);
  f1 ← (if Qlt_bool 0 (precision + recall)
        then float_truediv (2 * precision * recall) (precision + recall)
        else Ok 0%Q);
  let correct_polarity_count := count_correct_polarity matched_pairs in
  polarity_accuracy ← (if (0 <? tp_count)%Z
                       then int_truediv correct_polarity_count tp_count
                       else Ok 0%Q);
  let correct_bucket_count := count_correct_bucket matched_pairs in
  bucket_accuracy ← (if (0 <? tp_count)%Z
                     then int_truediv correct_bucket_count tp_count
                     else Ok 0%Q);
  let valid_evidence_spans :=
    count_valid_evidence_spans journal_text predicted_objects in
  evidence_coverage_rate ←
    (if (0 <? len predicted_objects)%Z
     then int_truediv valid_evidence_spans (len predicted_objects)
     else Ok 0%Q);
  Ok {| tp := tp_count;
        fp := fp_count;
        fn := fn_count;
        precision := precision;
        recall := recall;
        f1 := f1;
        polarity_accuracy := polarity_accuracy;
        bucket_accuracy := bucket_accuracy;
        evidence_coverage_rate := evidence_coverage_rate;
        score_matched_pairs :=
          (fun gp => (to_dict (fst gp), to_dict (snd gp))) <$> matched_pairs;
        false_positives := to_dict <$> fps;
        false_negatives := to_dict <$> fns |}.

(** The dict returned by [overall_scores]. *)
Record OverallScores : Type := {
  overall_precision : Q;
  overall_recall : Q;
  overall_f1 : Q;
  overall_polarity_accuracy : Q;
  overall_bucket_accuracy : Q;
  overall_evidence_coverage_rate : Q
}.

(** [sum(f(s) for s in l)] on ints and on floats: [sum] starts from 0 and
    adds from the left. *)
Definition sum_int {A : Type} (f : A -> Z) (l : list A) : Z :=
  foldl (fun acc s => (acc + f s)%Z) 0%Z l.
Definition sum_float {A : Type} (f : A -> Q) (l : list A) : Q :=
  foldl (fun acc s => (acc + f s)%Q) 0%Q l.

Definition overall_scores (all_journal_scores : list JournalScore)
    : result OverallScores :=
  let total_tp := sum_int tp all_journal_scores in
  let total_fp := sum_int fp all_journal_scores in
  let total_fn := sum_int fn all_journal_scores in
  overall_precision ← (if (0 <? total_tp + total_fp)%Z
                       then int_truediv total_tp (total_tp + total_fp)
                       else Ok 0%Q);
  overall_recall ← (if (0 <? total_tp + total_fn)%Z
                    then int_truediv total_tp (total_tp + total_fn)
                    else Ok 0%Q);
  overall_f1 ←
    (if Qlt_bool 0 (overall_precision + overall_recall)
     then float_truediv (2 * overall_precision * overall_recall)
                        (overall_precision + overall_recall)
     else Ok 0%Q);
  let total_polarity_correct :=
    sum_float (fun s => polarity_accuracy s * inject_Z (tp s))%Q
              all_journal_scores in
  overall_polarity_accuracy ←
    (if (0 <? total_tp)%Z
     then float_int_truediv total_polarity_correct total_tp else Ok 0%Q);
  let total_bucket_correct :=
    sum_float (fun s => bucket_accuracy s * inject_Z (tp s))%Q
              all_journal_scores in
  overall_bucket_accuracy ←
    (if (0 <? total_tp)%Z
     then float_int_truediv total_bucket_correct total_tp else Ok 0%Q);
  let total_valid_evidence_spans :=
    sum_float (fun s => evidence_coverage_rate s * inject_Z (tp s + fp s))%Q
              all_journal_scores in
  let total_predicted_objects :=
    sum_int (fun s => (tp s + fp s)%Z) all_journal_scores in
  overall_evidence_coverage_rate ←
    (if (0 <? total_predicted_objects)%Z
     then float_int_truediv total_valid_evidence_spans total_predicted_objects
     else Ok 0%Q);
  Ok {| overall_precision := overall_precision;
        overall_recall := overall_recall;
        overall_f1 := overall_f1;
        overall_polarity_accuracy := overall_polarity_accuracy;
        overall_bucket_accuracy := overall_bucket_accuracy;
        overall_evidence_coverage_rate := overall_evidence_coverage_rate |}.

(** ** main.py: the scoring loop *)

(** One journal of the corpus: its text, its gold objects and its predicted
    objects. *)
Definition Journal : Type :=
  (string * list SemanticObject * list SemanticObject)%type.

Definition journal_text_of (j : Journal) : string := fst (fst j).
Definition gold_of (j : Journal) : list SemanticObject := snd (fst j).
Definition predicted_of (j : Journal) : list SemanticObject := snd j.

(** The loop of [main] that scores every journal and collects
    [all_journal_scores]. *)
Definition score_all_journals (scorer : Scorer) (journals : list Journal)
    : result (list JournalScore) :=
  for_loop journals
    (fun all_journal_scores j =>
       score ← score_journal scorer (journal_text_of j) (gold_of j)
                             (predicted_of j);
       Ok (all_journal_scores ++ [score]))
    [].

(** ** scorer.py in double precision

    The definitions above read a [float] as the rational it stands for. The
    module [Binary64] embeds the same functions with the arithmetic of
    CPython: a [float] is an IEEE 754 binary64 number, a [spec_float] at
    precision 53 with exponents up to 1024; every operation rounds to the
    nearest double, ties to even; an int that meets a float is converted
    first, and the conversion raises [OverflowError] beyond the range of
    doubles. Strings, sets, lists and the counting loops are those above. *)
Module Binary64.
Import SpecFloat.

Definition float : Set := spec_float.

Definition prec : Z := 53.
Definition emax : Z := 1024.

(** [0.0], [0.5] and [1.0] *)
Definition zero : float := S754_zero false.
Definition half : float := S754_finite false 4503599627370496 (-53).
Definition one : float := S754_finite false 4503599627370496 (-52).

(** The double nearest to an int [n], as [float(n)] gives it and as
    arithmetic between a float and an int converts it. *)
Definition float_of_int (n : Z) : result float :=
  match binary_normalize prec emax n 0 false with
  | S754_infinity _ => Raise OverflowError
  | x => Ok x
  end.

(** An int as an unrounded operand of a division. *)
Definition exact_int (n : Z) : float :=
  match n with
  | Z0 => S754_zero false
  | Zpos m => S754_finite false m 0
  | Zneg m => S754_finite true m 0
  end.

(** [a / b] on two ints: the double nearest to the quotient. *)
Definition int_truediv (a b : Z) : result float :=
  if (b =? 0)%Z then Raise ZeroDivisionError
  else if (a =? 0)%Z then Ok (S754_zero (b <? 0)%Z)
  else
    match SFdiv prec emax (exact_int a) (exact_int b) with
    | S754_infinity _ => Raise OverflowError
    | x => Ok x
    end.

(** [a + b], [a * b], [a < b] and [a <= b] on two floats; the int 0 of
    [x > 0] compares as 0.0. *)
Definition float_add (a b : float) : float := SFadd prec emax a b.
Definition float_mul (a b : float) : float := SFmul prec emax a b.
Definition float_lt (a b : float) : bool := SFltb a b.
Definition float_le (a b : float) : bool := SFleb a b.

(** [a / b] on two floats *)
Definition float_truediv (a b : float) : result float :=
  if SFeqb b zero then Raise ZeroDivisionError
  else Ok (SFdiv prec emax a b).

(** [a * b] with [a] a float and [b] an int, [a * b] with [a] an int and
    [b] a float, and [a / b] with [a] a float and [b] an int *)
Definition float_int_mul (a : float) (b : Z) : result float :=
  b' ← float_of_int b; Ok (float_mul a b').
Definition int_float_mul (a : Z) (b : float) : result float :=
  a' ← float_of_int a; Ok (float_mul a' b).
Definition float_int_truediv (a : float) (b : Z) : result float :=
  b' ← float_of_int b; float_truediv a b'.

Definition calculate_jaccard_similarity (span1 span2 : string)
    : result float :=
  let set1 := token_set span1 in
  let set2 := token_set span2 in
  if bool_decide (set1 = ∅) && bool_decide (set2 = ∅) then Ok one
  else
    let intersection := Z.of_nat (size (set1 ∩ set2)) in
    let union := Z.of_nat (size (set1 ∪ set2)) in
    if negb (union =? 0)%Z then int_truediv intersection union else Ok zero.

Record Scorer : Set := { jaccard_threshold : float }.

(** [Scorer()] with the default argument of [__init__] *)
Definition Scorer_default : Scorer := {| jaccard_threshold := half |}.

(** An entry of [potential_matches]: [(jaccard_score, pred_idx, gold_idx)] *)
Definition PotentialMatch : Type := (float * nat * nat)%type.

Definition pm_score (m : PotentialMatch) : float := fst (fst m).

(** [l.sort(key=key, reverse=True)], as above, with the order of doubles. *)
Fixpoint insert_reverse {A : Type} (key : A -> float) (x : A) (l : list A)
    : list A :=
  match l with
  | [] => [x]
  | y :: l' =>
      if float_lt (key x) (key y) then y :: insert_reverse key x l'
      else x :: y :: l'
  end.

Fixpoint sort_reverse {A : Type} (key : A -> float) (l : list A) : list A :=
  match l with
  | [] => []
  | x :: l' => insert_reverse key x (sort_reverse key l')
  end.

Definition collect_potential_matches (self : Scorer)
    (unmatched_gold unmatched_predicted : list SemanticObject)
    : result (list PotentialMatch) :=
  for_loop (enumerate unmatched_gold)
    (fun potential_matches '(i, gold_obj) =>
       for_loop (enumerate unmatched_predicted)
         (fun potential_matches '(j, pred_obj) =>
            if String.eqb (domain gold_obj) (domain pred_obj) then
              jaccard ← calculate_jaccard_similarity
                          (evidence_span gold_obj) (evidence_span pred_obj);
              if float_le (jaccard_threshold self) jaccard
              then Ok (potential_matches ++ [(jaccard, j, i)])
              else Ok potential_matches
            else Ok potential_matches)
         potential_matches)
    [].

Definition greedy_step
    (unmatched_gold unmatched_predicted : list SemanticObject)
    (st : MatchState) (m : PotentialMatch) : result MatchState :=
  let '(jaccard, pred_idx, gold_idx) := m in
  if bool_decide (pred_idx ∉ matched_predicted_indices st)
     && bool_decide (gold_idx ∉ matched_gold_indices st)
  then
    g ← getitem unmatched_gold gold_idx;
    p ← getitem unmatched_predicted pred_idx;
    Ok {| matched_pairs := matched_pairs st ++ [(g, p)];
          matched_predicted_indices :=
            matched_predicted_indices st ∪ {[pred_idx]};
          matched_gold_indices := matched_gold_indices st ∪ {[gold_idx]} |}
  else Ok st.

Definition _match_objects (self : Scorer)
    (gold_objects predicted_objects : list SemanticObject)
    : result (list (SemanticObject * SemanticObject)
              * list SemanticObject * list SemanticObject) :=
  let unmatched_predicted := predicted_objects in
  let unmatched_gold := gold_objects in
  potential_matches ←
    collect_potential_matches self unmatched_gold unmatched_predicted;
  let potential_matches := sort_reverse pm_score potential_matches in
  st ← for_loop potential_matches
         (greedy_step unmatched_gold unmatched_predicted)
         {| matched_pairs := [];
            matched_predicted_indices := ∅;
            matched_gold_indices := ∅ |};
  let fps := not_matched unmatched_predicted (matched_predicted_indices st) in
  let fns := not_matched unmatched_gold (matched_gold_indices st) in
  Ok (matched_pairs st, fps, fns).

(** The dict returned by [score_journal]. *)
Record JournalScore : Type := {
  tp : Z;
  fp : Z;
  fn : Z;
  precision : float;
  recall : float;
  f1 : float;
  polarity_accuracy : float;
  bucket_accuracy : float;
  evidence_coverage_rate : float;
  score_matched_pairs : list (gmap string string * gmap string string);
  false_positives : list (gmap string string);
  false_negatives : list (gmap string string)
}.

Definition score_journal (self : Scorer) (journal_text : string)
    (gold_objects predicted_objects : list SemanticObject)
    : result JournalScore :=
  '(matched_pairs, fps, fns) ←
    _match_objects self gold_objects predicted_objects;
  let tp_count := len matched_pairs in
  let fp_count := len fps in
  let fn_count := len fns in
  precision ← (if (0 <? tp_count + fp_count)%Z
               then int_truediv tp_count (tp_count + fp_count)
               else Ok zero);
  recall ← (if (0 <? tp_count + fn_count)%Z
            then int_truediv tp_count (tp_count + fn_count)
            else Ok zero);
  f1 ← (if float_lt zero (float_add precision recall)
        then
          twice_precision ← int_float_mul 2 precision;
          float_truediv (float_mul twice_precision recall)
                        (float_add precision recall)
        else Ok zero);
  let correct_polarity_count := count_correct_polarity matched_pairs in
  polarity_accuracy ← (if (0 <? tp_count)%Z
                       then int_truediv correct_polarity_count tp_count
                       else Ok zero);
  let correct_bucket_count := count_correct_bucket matched_pairs in
  bucket_accuracy ← (if (0 <? tp_count)%Z
                     then int_truediv correct_bucket_count tp_count
                     else Ok zero);
  let valid_evidence_spans :=
    count_valid_evidence_spans journal_text predicted_objects in
  evidence_coverage_rate ←
    (if (0 <? len predicted_objects)%Z
     then int_truediv valid_evidence_spans (len predicted_objects)
     else Ok zero);
  Ok {| tp := tp_count;
        fp := fp_count;
        fn := fn_count;
        precision := precision;
        recall := recall;
        f1 := f1;
        polarity_accuracy := polarity_accuracy;
        bucket_accuracy := bucket_accuracy;
        evidence_coverage_rate := evidence_coverage_rate;
        score_matched_pairs :=
          (fun gp => (to_dict (fst gp), to_dict (snd gp))) <$> matched_pairs;
        false_positives := to_dict <$> fps;
        false_negatives := to_dict <$> fns |}.

(** The dict returned by [overall_scores]. *)
Record OverallScores : Type := {
  overall_precision : float;
  overall_recall : float;
  overall_f1 : float;
  overall_polarity_accuracy : float;
  overall_bucket_accuracy : float;
  overall_evidence_coverage_rate : float
}.

(** [sum(f(s) for s in l)] on floats: each term is computed when the sum
    reaches it and added to the running total, which is rounded after every
    addition. The int 0 from which [sum] starts adds as 0.0; on an empty
    list [sum] gives that int, which [overall_scores] never divides, the
    guards being false. CPython 3.12 and later carry a compensation term
    through a sum of floats as well; it raises nothing, and it is zero
    when all terms but one are 0.0. *)
Definition sum_float {A : Type} (f : A -> result float) (l : list A)
    : result float :=
  for_loop l (fun total s => x ← f s; Ok (float_add total x)) zero.

Definition overall_scores (all_journal_scores : list JournalScore)
    : result OverallScores :=
  let total_tp := sum_int tp all_journal_scores in
  let total_fp := sum_int fp all_journal_scores in
  let total_fn := sum_int fn all_journal_scores in
  overall_precision ← (if (0 <? total_tp + total_fp)%Z
                       then int_truediv total_tp (total_tp + total_fp)
                       else Ok zero);
  overall_recall ← (if (0 <? total_tp + total_fn)%Z
                    then int_truediv total_tp (total_tp + total_fn)
                    else Ok zero);
  overall_f1 ←
    (if float_lt zero (float_add overall_precision overall_recall)
     then
       twice_precision ← int_float_mul 2 overall_precision;
       float_truediv (float_mul twice_precision overall_recall)
                     (float_add overall_precision overall_recall)
     else Ok zero);
  total_polarity_correct ←
    sum_float (fun s => float_int_mul (polarity_accuracy s) (tp s))
              all_journal_scores;
  overall_polarity_accuracy ←
    (if (0 <? total_tp)%Z
     then float_int_truediv total_polarity_correct total_tp else Ok zero);
  total_bucket_correct ←
    sum_float (fun s => float_int_mul (bucket_accuracy s) (tp s))
              all_journal_scores;
  overall_bucket_accuracy ←
    (if (0 <? total_tp)%Z
     then float_int_truediv total_bucket_correct total_tp else Ok zero);
  total_valid_evidence_spans ←
    sum_float (fun s => float_int_mul (evidence_coverage_rate s)
                                      (tp s + fp s))
              all_journal_scores;
  let total_predicted_objects :=
    sum_int (fun s => (tp s + fp s)%Z) all_journal_scores in
  overall_evidence_coverage_rate ←
    (if (0 <? total_predicted_objects)%Z
     then float_int_truediv total_valid_evidence_spans total_predicted_objects
     else Ok zero);
  Ok {| overall_precision := overall_precision;
        overall_recall := overall_recall;
        overall_f1 := overall_f1;
        overall_polarity_accuracy := overall_polarity_accuracy;
        overall_bucket_accuracy := overall_bucket_accuracy;
        overall_evidence_coverage_rate := overall_evidence_coverage_rate |}.

(** The loop of [main] that scores every journal. *)
Definition score_all_journals (scorer : Scorer) (journals : list Journal)
    : result (list JournalScore) :=
  for_loop journals
    (fun all_journal_scores j =>
       score ← score_journal scorer (journal_text_of j) (gold_of j)
                             (predicted_of j);
       Ok (all_journal_scores ++ [score]))
    [].

End Binary64.

(** ** main.py: loading and the evaluation loop

    File access, JSON parsing and the writing of the reports are outside
    the embedding. A parsed record is a JSON object; a record of
    [journals.jsonl] holds JSON values of any kind, which [main] hands to
    the scorer as they are; the records of the annotation files have fields
    that are strings or lists of items, and an item has string fields, as
    the annotations of [SemanticObject.__init__] declare. *)

(** The exceptions of this part; [Raised] carries an exception of the
    scorer. *)
Inductive Exception : Set :=
| KeyError (key : string)
| TypeError
| JSONDecodeError
| Raised (e : PyError).

Inductive outcome (A : Type) : Type :=
| Done (a : A)
| Failed (e : Exception).
Arguments Done {A} a.
Arguments Failed {A} e.

#[global] Instance outcome_ret : MRet outcome := fun A a => Done a.
#[global] Instance outcome_bind : MBind outcome := fun A B f m =>
  match m with
  | Done a => f a
  | Failed e => Failed e
  end.

Definition of_result {A : Type} (r : result A) : outcome A :=
  match r with
  | Ok a => Done a
  | Raise e => Failed (Raised e)
  end.

(** [for x in l: body] where the body may raise an [Exception]. *)
Fixpoint for_each {A S : Type} (l : list A) (body : S -> A -> outcome S)
    (s : S) : outcome S :=
  match l with
  | [] => Done s
  | x :: l' => s' ← body s x; for_each l' body s'
  end.

(** A [dict] with string keys whose order of insertion matters: its items in
    that order. *)
Definition pydict (V : Type) : Type := list (string * V).

(** [d[k] = v]: a key already present keeps its place. *)
Fixpoint dict_setitem {V : Type} (d : pydict V) (k : string) (v : V)
    : pydict V :=
  match d with
  | [] => [(k, v)]
  | (k', v') :: d' =>
      if String.eqb k' k then (k', v) :: d'
      else (k', v') :: dict_setitem d' k v
  end.

Fixpoint dict_lookup {V : Type} (d : pydict V) (k : string) : option V :=
  match d with
  | [] => None
  | (k', v') :: d' => if String.eqb k' k then Some v' else dict_lookup d' k
  end.

(** [d.get(k, default)] *)
Definition dict_get {V : Type} (d : pydict V) (k : string) (default : V) : V :=
  match dict_lookup d k with
  | Some v => v
  | None => default
  end.

(** [item[key]] on a record with string fields *)
Definition item_getitem (item : gmap string string) (key : string)
    : outcome string :=
  match item !! key with
  | Some v => Done v
  | None => Failed (KeyError key)
  end.

(** [item.get(key, default)] *)
Definition item_get (item : gmap string string) (key default : string)
    : string :=
  match item !! key with
  | Some v => v
  | None => default
  end.

(** The call [SemanticObject(domain=item["domain"], ...)] of
    [load_semantic_objects]; the arguments are evaluated in the order in
    which they are written. *)
Definition semantic_object_of_item (item : gmap string string)
    : outcome SemanticObject :=
  domain ← item_getitem item "domain";
  evidence_span ← item_getitem item "evidence_span";
  polarity ← item_getitem item "polarity";
  let intensity_bucket := item_get item "intensity_bucket" "unknown" in
  let arousal_bucket := item_get item "arousal_bucket" "unknown" in
  time_bucket ← item_getitem item "time_bucket";
  Done {| domain := domain;
          evidence_span := evidence_span;
          polarity := polarity;
          intensity_bucket := intensity_bucket;
          arousal_bucket := arousal_bucket;
          time_bucket := time_bucket |}.

(** A field of a record of an annotation file. *)
Inductive FieldValue : Type :=
| FString (s : string)
| FItems (items : list (gmap string string)).

(** What [for item in v] iterates over: the items of a list, the characters
    of a string. *)
Definition iterate (v : FieldValue) : list (gmap string string + ascii) :=
  match v with
  | FItems items => inl <$> items
  | FString s => inr <$> list_ascii_of_string s
  end.

(** The body of the inner loop of [load_semantic_objects]; subscripting a
    character with a string raises [TypeError]. *)
Definition load_item (objects : list SemanticObject)
    (item : gmap string string + ascii) : outcome (list SemanticObject) :=
  match item with
  | inl item =>
      obj ← semantic_object_of_item item;
      Done (objects ++ [obj])
  | inr _ => Failed TypeError
  end.

Definition load_semantic_objects
    (data_by_journal : pydict (gmap string FieldValue)) (key : string)
    : outcome (pydict (list SemanticObject)) :=
  for_each data_by_journal
    (fun all_semantic_objects '(journal_id, journal_data) =>
       objects ←
         for_each
           (iterate (match journal_data !! key with
                     | Some v => v
                     | None => FItems []
                     end))
           load_item [];
       Done (dict_setitem all_semantic_objects journal_id objects))
    [].

(** [load_data_from_jsonl] on the lines of the file, for any representation
    [R] of parsed records: [json_loads] is the parser and [journal_id_of]
    is [data["journal_id"]]. *)
Definition load_data_from_jsonl {R : Type}
    (json_loads : string -> outcome R) (journal_id_of : R -> outcome string)
    (lines : list string) : outcome (pydict R) :=
  for_each lines
    (fun data_by_journal line =>
       data ← json_loads line;
       journal_id ← journal_id_of data;
       Done (dict_setitem data_by_journal journal_id data))
    [].

(** The compact per-journal record of [main]. *)
Record PerJournalOutput : Type := {
  out_journal_id : string;
  out_tp : Z;
  out_fp : Z;
  out_fn : Z;
  out_precision : Q;
  out_recall : Q;
  out_f1 : Q;
  out_polarity_accuracy : Q;
  out_bucket_accuracy : Q;
  out_evidence_coverage_rate : Q
}.

Definition per_journal_output (journal_id : string) (score : JournalScore)
    : PerJournalOutput :=
  {| out_journal_id := journal_id;
     out_tp := tp score;
     out_fp := fp score;
     out_fn := fn score;
     out_precision := precision score;
     out_recall := recall score;
     out_f1 := f1 score;
     out_polarity_accuracy := polarity_accuracy score;
     out_bucket_accuracy := bucket_accuracy score;
     out_evidence_coverage_rate := evidence_coverage_rate score |}.

(** A value as [json.loads] returns it: [None], a [bool], an [int], a
    [float], a [str], a [list], or a [dict], whose keys are strings. *)
#[warnings="-register-all"] Inductive JSON : Type :=
| JNull
| JBool (b : bool)
| JInt (n : Z)
| JFloat (x : Binary64.float)
| JString (s : string)
| JArray (items : list JSON)
| JObject (members : list (string * JSON)).

(** [record[key]] on a parsed record *)
Definition record_getitem (record : gmap string JSON) (key : string)
    : outcome JSON :=
  match record !! key with
  | Some v => Done v
  | None => Failed (KeyError key)
  end.

(** [span in text] for a [str] [span] and any [text]: the substring test on
    a [str], an element of a [list], a key of a [dict]; [None], a [bool] and
    a number are not iterable, and the test raises [TypeError]. *)
Definition json_contains (span : string) (text : JSON) : outcome bool :=
  match text with
  | JString t => Done (py_in span t)
  | JArray items =>
      Done (existsb (fun v => match v with
                              | JString s => String.eqb s span
                              | _ => false
                              end) items)
  | JObject members =>
      Done (existsb (fun kv => String.eqb (fst kv) span) members)
  | JNull | JBool _ | JInt _ | JFloat _ => Failed TypeError
  end.

(** [score_journal] as [main] calls it, on the value that the record holds
    under "text": the function is the one above, and its only use of
    [journal_text] is the test [pred_obj.evidence_span in journal_text]. *)
Module Dynamic.

Definition count_valid_evidence_spans (journal_text : JSON)
    (predicted_objects : list SemanticObject) : outcome Z :=
  for_each predicted_objects
    (fun valid_evidence_spans pred_obj =>
       found ← json_contains (evidence_span pred_obj) journal_text;
       Done (if found : bool then (valid_evidence_spans + 1)%Z
             else valid_evidence_spans))
    0%Z.

Definition score_journal (self : Scorer) (journal_text : JSON)
    (gold_objects predicted_objects : list SemanticObject)
    : outcome JournalScore :=
  '(matched_pairs, fps, fns) ←
    of_result (_match_objects self gold_objects predicted_objects);
  let tp_count := len matched_pairs in
  let fp_count := len fps in
  let fn_count := len fns in
  precision ← of_result
                (if (0 <? tp_count + fp_count)%Z
                 then int_truediv tp_count (tp_count + fp_count)
                 else Ok 0%Q);
  recall ← of_result
             (if (0 <? tp_count + fn_count)%Z
              then int_truediv tp_count (tp_count + fn_count)
              else Ok 0%Q);
  f1 ← of_result
         (if Qlt_bool 0 (precision + recall)
          then float_truediv (2 * precision * recall) (precision + recall)
          else Ok 0%Q);
  let correct_polarity_count := count_correct_polarity matched_pairs in
  polarity_accuracy ← of_result
                        (if (0 <? tp_count)%Z
                         then int_truediv correct_polarity_count tp_count
                         else Ok 0%Q);
  let correct_bucket_count := count_correct_bucket matched_pairs in
  bucket_accuracy ← of_result
                      (if (0 <? tp_count)%Z
                       then int_truediv correct_bucket_count tp_count
                       else Ok 0%Q);
  valid_evidence_spans ←
    count_valid_evidence_spans journal_text predicted_objects;
  evidence_coverage_rate ←
    of_result
      (if (0 <? len predicted_objects)%Z
       then int_truediv valid_evidence_spans (len predicted_objects)
       else Ok 0%Q);
  Done {| tp := tp_count;
          fp := fp_count;
          fn := fn_count;
          precision := precision;
          recall := recall;
          f1 := f1;
          polarity_accuracy := polarity_accuracy;
          bucket_accuracy := bucket_accuracy;
          evidence_coverage_rate := evidence_coverage_rate;
          score_matched_pairs :=
            (fun gp => (to_dict (fst gp), to_dict (snd gp)))
              <$> matched_pairs;
          false_positives := to_dict <$> fps;
          false_negatives := to_dict <$> fns |}.

End Dynamic.

(** The loop of [main] over [journals_data.items()], and the summary that
    follows it; [main] scores with [Scorer()]. *)
Definition main_loop (journals_data : pydict (gmap string JSON))
    (gold_objects_by_journal predicted_objects_by_journal
       : pydict (list SemanticObject))
    : outcome (list JournalScore * list PerJournalOutput) :=
  let scorer := Scorer_default in
  for_each journals_data
    (fun acc '(journal_id, journal_entry_data) =>
       let '(all_journal_scores, per_journal_scores_output) := acc in
       journal_text ← record_getitem journal_entry_data "text";
       let gold_objs := dict_get gold_objects_by_journal journal_id [] in
       let predicted_objs :=
         dict_get predicted_objects_by_journal journal_id [] in
       score ← Dynamic.score_journal scorer journal_text gold_objs
                                     predicted_objs;
       Done (all_journal_scores ++ [score],
             per_journal_scores_output
               ++ [per_journal_output journal_id score]))
    ([], []).

Definition main_evaluate (journals_data : pydict (gmap string JSON))
    (gold_objects_by_journal predicted_objects_by_journal
       : pydict (list SemanticObject))
    : outcome (OverallScores * list PerJournalOutput) :=
  '(all_journal_scores, per_journal_scores_output) ←
    main_loop journals_data gold_objects_by_journal
              predicted_objects_by_journal;
  overall_summary ← of_result (overall_scores all_journal_scores);
  Done (overall_summary, per_journal_scores_output).

(** [extract_semantic_objects]: the placeholder of the extraction step. *)
Definition extract_semantic_objects (journal_entry : string)
    : list SemanticObject := [].

(** * Notions of the specification and of the proofs *)

(** ** Similarity and candidates *)

(** The value of [calculate_jaccard_similarity], which never raises. *)
Definition similarity (a b : string) : Q :=
  match calculate_jaccard_similarity a b with
  | Ok q => q
  | Raise _ => 0%Q
  end.

(** Step 1 and 2 of the matcher as a comprehension: every (gold index [i],
    predicted index [j]) whose domains are equal and whose similarity reaches
    the threshold, gold index in the outer loop, predicted index in the inner
    one, each candidate carrying its similarity as weight. *)
Definition candidate_of (self : Scorer) (i : nat) (g : SemanticObject)
    (j : nat) (p : SemanticObject) : list PotentialMatch :=
  if String.eqb (domain g) (domain p)
     && Qle_bool (jaccard_threshold self)
                 (similarity (evidence_span g) (evidence_span p))
  then [(similarity (evidence_span g) (evidence_span p), j, i)]
  else [].

Definition candidate_pairs (self : Scorer)
    (gold pred : list SemanticObject) : list PotentialMatch :=
  flat_map (fun ig : nat * SemanticObject =>
              flat_map (fun jp : nat * SemanticObject =>
                          candidate_of self (fst ig) (snd ig) (fst jp) (snd jp))
                       (enumerate pred))
           (enumerate gold).

(** ** Sorting and walking *)

(** Non-increasing keys. *)
Definition descending {A : Type} (key : A -> Q) (l : list A) : Prop :=
  StronglySorted (fun a b => (key b <= key a)%Q) l.

(** The elements whose key reaches [t] / whose key is [q]. *)
Definition reaches {A : Type} (key : A -> Q) (t : Q) (x : A) : bool :=
  Qle_bool t (key x).
Definition has_key {A : Type} (key : A -> Q) (q : Q) (x : A) : bool :=
  Qeq_bool (key x) q.

(** Step 4 of the matcher in the spec's words: walk the sorted candidates and
    commit one only if neither its gold index nor its predicted index has been
    consumed by a candidate committed earlier. *)
Definition consumed (m : PotentialMatch) (committed : list PotentialMatch)
    : Prop :=
  pm_gold m ∈ (pm_gold <$> committed) \/ pm_pred m ∈ (pm_pred <$> committed).

#[global] Instance consumed_dec m committed : Decision (consumed m committed).
Proof. unfold consumed. apply _. Defined.

Definition commit (committed : list PotentialMatch) (m : PotentialMatch)
    : list PotentialMatch :=
  if bool_decide (consumed m committed) then committed else committed ++ [m].

Fixpoint greedy_walk (l committed : list PotentialMatch)
    : list PotentialMatch :=
  match l with
  | [] => committed
  | m :: l' => greedy_walk l' (commit committed m)
  end.

Definition greedy_commit (l : list PotentialMatch) : list PotentialMatch :=
  greedy_walk l [].

(** The object pair a committed candidate stands for. *)
Definition pair_of (gold pred : list SemanticObject) (m : PotentialMatch)
    (gp : SemanticObject * SemanticObject) : Prop :=
  gold !! pm_gold m = Some (fst gp) /\ pred !! pm_pred m = Some (snd gp).

Definition in_range (gold pred : list SemanticObject) (m : PotentialMatch)
    : Prop :=
  pm_gold m < length gold /\ pm_pred m < length pred.

(** The loop state [st] holds exactly the candidates [committed]. *)
Record represents (gold pred : list SemanticObject) (st : MatchState)
    (committed : list PotentialMatch) : Prop := {
  rep_pairs : Forall2 (pair_of gold pred) committed (matched_pairs st);
  rep_pred :
    matched_predicted_indices st = list_to_set (pm_pred <$> committed);
  rep_gold : matched_gold_indices st = list_to_set (pm_gold <$> committed)
}.

Definition sorted_candidates (self : Scorer)
    (gold pred : list SemanticObject) : list PotentialMatch :=
  sort_reverse pm_score (candidate_pairs self gold pred).

Definition committed_candidates (self : Scorer)
    (gold pred : list SemanticObject) : list PotentialMatch :=
  greedy_commit (sorted_candidates self gold pred).

(** ** Ratios and the dicts built from them *)

(** [a / b if b > 0 else 0.0] *)
Definition ratio (a b : Z) : Q :=
  if (0 <? b)%Z then (inject_Z a / inject_Z b)%Q else 0%Q.

(** [2 * p * r / (p + r) if p + r > 0 else 0.0] *)
Definition f1_of (p r : Q) : Q :=
  if Qlt_bool 0 (p + r) then (2 * p * r / (p + r))%Q else 0%Q.

(** [a / b if b > 0 else 0.0], with [a] a float *)
Definition weighted_ratio (a : Q) (b : Z) : Q :=
  if (0 <? b)%Z then (a / inject_Z b)%Q else 0%Q.

(** The dict that [score_journal] builds from the matcher's result. *)
Definition journal_score_of (journal_text : string)
    (predicted_objects : list SemanticObject)
    (pairs : list (SemanticObject * SemanticObject))
    (fps fns : list SemanticObject) : JournalScore :=
  let p := ratio (len pairs) (len pairs + len fps) in
  let r := ratio (len pairs) (len pairs + len fns) in
  {| tp := len pairs;
     fp := len fps;
     fn := len fns;
     precision := p;
     recall := r;
     f1 := f1_of p r;
     polarity_accuracy := ratio (count_correct_polarity pairs) (len pairs);
     bucket_accuracy := ratio (count_correct_bucket pairs) (len pairs);
     evidence_coverage_rate :=
       ratio (count_valid_evidence_spans journal_text predicted_objects)
             (len predicted_objects);
     score_matched_pairs :=
       (fun gp => (to_dict (fst gp), to_dict (snd gp))) <$> pairs;
     false_positives := to_dict <$> fps;
     false_negatives := to_dict <$> fns |}.

(** The dict that [overall_scores] builds. *)
Definition overall_scores_of (all_journal_scores : list JournalScore)
    : OverallScores :=
  let total_tp := sum_int tp all_journal_scores in
  let total_fp := sum_int fp all_journal_scores in
  let total_fn := sum_int fn all_journal_scores in
  let p := ratio total_tp (total_tp + total_fp) in
  let r := ratio total_tp (total_tp + total_fn) in
  {| overall_precision := p;
     overall_recall := r;
     overall_f1 := f1_of p r;
     overall_polarity_accuracy :=
       weighted_ratio
         (sum_float (fun s => polarity_accuracy s * inject_Z (tp s))%Q
                    all_journal_scores) total_tp;
     overall_bucket_accuracy :=
       weighted_ratio
         (sum_float (fun s => bucket_accuracy s * inject_Z (tp s))%Q
                    all_journal_scores) total_tp;
     overall_evidence_coverage_rate :=
       weighted_ratio
         (sum_float
            (fun s => evidence_coverage_rate s * inject_Z (tp s + fp s))%Q
            all_journal_scores)
         (sum_int (fun s => (tp s + fp s)%Z) all_journal_scores) |}.

(** ** The matcher of the specification *)

(** Candidate-generation order: gold index in the outer loop, predicted index
    in the inner loop. *)
Definition generation_order (m1 m2 : PotentialMatch) : Prop :=
  pm_gold m1 < pm_gold m2 \/
  (pm_gold m1 = pm_gold m2 /\ pm_pred m1 < pm_pred m2).

(** A candidate: a pair of positions that passes the domain gate and the
    threshold gate, weighted by its similarity. *)
Definition passes_gates (self : Scorer) (gold pred : list SemanticObject)
    (m : PotentialMatch) : Prop :=
  exists g p,
    gold !! pm_gold m = Some g /\ pred !! pm_pred m = Some p /\
    domain g = domain p /\
    pm_score m = similarity (evidence_span g) (evidence_span p) /\
    (jaccard_threshold self <= pm_score m)%Q.

(** [sorted] is [l] sorted by weight in descending order by a stable sort. *)
Definition stable_descending (l sorted : list PotentialMatch) : Prop :=
  Permutation sorted l /\
  descending pm_score sorted /\
  forall q, List.filter (has_key pm_score q) sorted
            = List.filter (has_key pm_score q) l.

(** ** Evidence coverage *)

(** [s] is found verbatim in [t]: [t] is some text, then [s], then some
    text. *)
Definition occurs_in (s t : string) : Prop :=
  exists before after, t = before +:+ s +:+ after.

(** The predicted objects whose [evidence_span] is [in] the document text,
    and their fraction among all predicted objects (0 when there is none). *)
Definition grounded (document_text : string)
    (predicted : list SemanticObject) : list SemanticObject :=
  filter (fun p => py_in (evidence_span p) document_text = true) predicted.

Definition grounded_fraction (document_text : string)
    (predicted : list SemanticObject) : Q :=
  match predicted with
  | [] => 0%Q
  | _ => (inject_Z (len (grounded document_text predicted))
          / inject_Z (len predicted))%Q
  end.

(** What one predicted object adds to [valid_evidence_spans]. *)
Definition contribution (document_text : string) (p : SemanticObject) : Z :=
  if py_in (evidence_span p) document_text then 1%Z else 0%Z.

(** ** Corpus aggregation *)

(** Σ over a list, on floats and on ints. *)
Fixpoint sigma {A : Type} (f : A -> Q) (l : list A) : Q :=
  match l with
  | [] => 0%Q
  | x :: l' => (f x + sigma f l')%Q
  end.

Fixpoint sigma_int {A : Type} (f : A -> Z) (l : list A) : Z :=
  match l with
  | [] => 0%Z
  | x :: l' => (f x + sigma_int f l')%Z
  end.


(** The raw-count computation: [Σ valid_evidence_spans_i / Σ |predicted_i|],
    0 when the denominator is 0. *)
Definition raw_count_coverage (journals : list Journal) : Q :=
  let valid :=
    sigma_int (fun j => count_valid_evidence_spans (journal_text_of j)
                                                   (predicted_of j))
              journals in
  let predicted := sigma_int (fun j => len (predicted_of j)) journals in
  if (predicted =? 0)%Z then 0%Q
  else (inject_Z valid / inject_Z predicted)%Q.

(** What the score of a journal retains of the raw counts. *)
Definition retains_counts (j : Journal) (s : JournalScore) : Prop :=
  (tp s + fp s)%Z = len (predicted_of j) /\
  (evidence_coverage_rate s * inject_Z (tp s + fp s)
   == inject_Z (count_valid_evidence_spans (journal_text_of j)
                                            (predicted_of j)))%Q.

(** ** The raw counts in double precision *)

(** The raw-count computation with the division of the code,
    [Σ valid_evidence_spans_i / Σ |predicted_i|] on two ints, 0.0 when the
    denominator is 0. *)
Definition raw_count_coverage_double (journals : list Journal)
    : result Binary64.float :=
  let valid :=
    sigma_int (fun j => count_valid_evidence_spans (journal_text_of j)
                                                   (predicted_of j))
              journals in
  let predicted := sigma_int (fun j => len (predicted_of j)) journals in
  if (predicted =? 0)%Z then Ok Binary64.zero
  else Binary64.int_truediv valid predicted.

(** ** Serialised views *)

(** The keys that [load_semantic_objects] requires of an item. *)
Definition required_keys : list string :=
  ["domain"; "evidence_span"; "polarity"; "time_bucket"].

(** The key under which [to_dict] emits the bucket of an object. *)
Definition bucket_key (o : SemanticObject) : string :=
  if String.eqb (domain o) "emotion" then "arousal_bucket"
  else "intensity_bucket".

(** An object read back from its own dict: the bucket that [to_dict] leaves
    out comes back as ["unknown"]. *)
Definition read_back (o : SemanticObject) : SemanticObject :=
  {| domain := domain o;
     evidence_span := evidence_span o;
     polarity := polarity o;
     intensity_bucket :=
       if String.eqb (domain o) "emotion" then "unknown"
       else intensity_bucket o;
     arousal_bucket :=
       if String.eqb (domain o) "emotion" then arousal_bucket o
       else "unknown";
     time_bucket := time_bucket o |}.

(** The objects that the items of a field load to: one object per item of a
    list, in order; a string field loads only when it is empty, there being
    no object to load from a character. *)
Definition objects_of_field (v : FieldValue) (objs : list SemanticObject)
    : Prop :=
  match v with
  | FItems items =>
      Forall2 (fun item o => semantic_object_of_item item = Done o) items objs
  | FString s => s = EmptyString /\ objs = []
  end.

(** [journal_data.get(key, [])] *)
Definition field_or_empty (journal_data : gmap string FieldValue)
    (key : string) : FieldValue :=
  match journal_data !! key with
  | Some v => v
  | None => FItems []
  end.

(** The JSON values on which [in] raises [TypeError]. *)
Definition not_iterable (v : JSON) : Prop :=
  match v with
  | JNull | JBool _ | JInt _ | JFloat _ => True
  | JString _ | JArray _ | JObject _ => False
  end.

(** ** Examples *)

(** The scenario of the specification: one gold and one predicted symptom. *)
Definition example_gold : SemanticObject :=
  {| domain := "symptom"; evidence_span := "sharp stomach pain";
     polarity := "present"; intensity_bucket := "high";
     arousal_bucket := "unknown"; time_bucket := "today" |}.

Definition example_pred : SemanticObject :=
  {| domain := "symptom"; evidence_span := "stomach pain";
     polarity := "present"; intensity_bucket := "high";
     arousal_bucket := "unknown"; time_bucket := "today" |}.


(** A corpus of two journals without gold objects: 49 predicted objects of
    which one has its span in the text, and one predicted object whose span
    is not in the text. *)
Definition example_object (span : string) : SemanticObject :=
  {| domain := "food"; evidence_span := span;
     polarity := "present"; intensity_bucket := "low";
     arousal_bucket := "unknown"; time_bucket := "today" |}.

Definition example_corpus : list Journal :=
  [("had tea", [],
    example_object "tea" :: replicate 48 (example_object "rice"));
   ("slept", [], [example_object "rice"])].

(** A score dict of the double-precision aggregator with [tp_count] matched
    pairs, all counted correct in the proportion [accuracy]. *)
Definition example_score_double (tp_count : Z) (accuracy : Binary64.float)
    : Binary64.JournalScore :=
  {| Binary64.tp := tp_count; Binary64.fp := 0; Binary64.fn := 0;
     Binary64.precision := Binary64.one; Binary64.recall := Binary64.one;
     Binary64.f1 := Binary64.one;
     Binary64.polarity_accuracy := accuracy;
     Binary64.bucket_accuracy := accuracy;
     Binary64.evidence_coverage_rate := Binary64.one;
     Binary64.score_matched_pairs := []; Binary64.false_positives := [];
     Binary64.false_negatives := [] |}.

(** * Lemmas *)

(** ** The scenario of the specification *)

Example jaccard_scenario :
  calculate_jaccard_similarity "sharp stomach pain" "stomach pain"
  = Ok (2 / 3)%Q.
Proof. vm_compute. reflexivity. Qed.

Example score_journal_scenario :
  exists s,
    score_journal Scorer_default "a sharp stomach pain woke me up"
                  [example_gold] [example_pred] = Ok s /\
    tp s = 1%Z /\ fp s = 0%Z /\ fn s = 0%Z /\
    (precision s == 1)%Q /\ (recall s == 1)%Q /\ (f1 s == 1)%Q /\
    (polarity_accuracy s == 1)%Q /\ (bucket_accuracy s == 1)%Q /\
    (evidence_coverage_rate s == 1)%Q.
Proof. eexists. split; [vm_compute; reflexivity|]. by repeat split. Qed.

(** ** Loops *)

Section Loops.
Context {A B : Type}.

(** A loop whose body only appends to its accumulator computes a
    [flat_map]. *)
Lemma for_loop_append (f : A -> list B)
    (body : list B -> A -> result (list B)) (l : list A) :
  (forall s x, In x l -> body s x = Ok (s ++ f x)) ->
  forall s, for_loop l body s = Ok (s ++ flat_map f l).
Proof.
  induction l as [|x l IH]; intros Hbody s; simpl.
  - by rewrite app_nil_r.
  - rewrite Hbody by (by left). simpl.
    change (for_loop l body (s ++ f x) = Ok (s ++ f x ++ flat_map f l)).
    rewrite IH by (intros; apply Hbody; by right).
    by rewrite app_assoc.
Qed.

End Loops.

(** ** [enumerate] *)

Lemma elem_of_enumerate_from {A : Type} (l : list A) (n i : nat) (x : A) :
  (i, x) ∈ enumerate_from n l <-> n <= i /\ l !! (i - n) = Some x.
Proof.
  revert n; induction l as [|y l IH]; intros n; simpl.
  - rewrite elem_of_nil. split; [done | intros [_ Hl]; discriminate Hl].
  - rewrite elem_of_cons, IH. split.
    + intros [Heq | [Hle Hl]].
      * inversion Heq; subst. split; [lia|]. by rewrite Nat.sub_diag.
      * split; [lia|]. by replace (i - n) with (S (i - S n)) by lia.
    + intros [Hle Hl]. destruct (decide (i = n)) as [->|Hne].
      * left. rewrite Nat.sub_diag in Hl. simpl in Hl. congruence.
      * right. split; [lia|].
        by replace (i - n) with (S (i - S n)) in Hl by lia.
Qed.

Lemma elem_of_enumerate {A : Type} (l : list A) (i : nat) (x : A) :
  (i, x) ∈ enumerate l <-> l !! i = Some x.
Proof.
  unfold enumerate. rewrite elem_of_enumerate_from, Nat.sub_0_r.
  split; [tauto | intros; split; [lia | done]].
Qed.

(** ** Comparisons and divisions *)

Lemma Qlt_bool_iff (a b : Q) : Qlt_bool a b = true <-> (a < b)%Q.
Proof. unfold Qlt_bool, Qlt. apply Z.ltb_lt. Qed.

Lemma Qlt_bool_false (a b : Q) : Qlt_bool a b = false <-> (b <= a)%Q.
Proof. unfold Qlt_bool, Qle. rewrite Z.ltb_ge. reflexivity. Qed.

Lemma Qle_bool_false (a b : Q) : Qle_bool a b = false <-> (b < a)%Q.
Proof.
  rewrite <- not_true_iff_false, Qle_bool_iff. split.
  - apply Qnot_le_lt.
  - apply Qlt_not_le.
Qed.

Lemma int_truediv_ok (a b : Z) :
  b <> 0%Z -> int_truediv a b = Ok (inject_Z a / inject_Z b)%Q.
Proof.
  intros Hb. unfold int_truediv.
  destruct (Z.eqb_spec b 0); [contradiction | reflexivity].
Qed.

Lemma float_int_truediv_ok (a : Q) (b : Z) :
  b <> 0%Z -> float_int_truediv a b = Ok (a / inject_Z b)%Q.
Proof.
  intros Hb. unfold float_int_truediv, float_truediv.
  destruct (Qeq_bool (inject_Z b) 0) eqn:E; [|reflexivity].
  apply Qeq_bool_iff in E. unfold Qeq in E. simpl in E. lia.
Qed.

(** ** Candidate generation *)

Lemma calculate_jaccard_similarity_ok (a b : string) :
  calculate_jaccard_similarity a b = Ok (similarity a b).
Proof.
  unfold similarity, calculate_jaccard_similarity.
  destruct (bool_decide (token_set a = ∅) && bool_decide (token_set b = ∅));
    [reflexivity|].
  destruct (Z.eqb_spec (Z.of_nat (size (token_set a ∪ token_set b))) 0)
    as [E|E]; simpl; [reflexivity|].
  by rewrite int_truediv_ok.
Qed.

Lemma collect_potential_matches_ok (self : Scorer)
    (gold pred : list SemanticObject) :
  collect_potential_matches self gold pred
  = Ok (candidate_pairs self gold pred).
Proof.
  unfold collect_potential_matches, candidate_pairs.
  rewrite (for_loop_append
             (fun ig : nat * SemanticObject =>
                flat_map (fun jp : nat * SemanticObject =>
                   candidate_of self (fst ig) (snd ig) (fst jp) (snd jp))
                  (enumerate pred))); [reflexivity|].
  intros s [i g] _.
  apply for_loop_append. intros s' [j p] _. simpl.
  unfold candidate_of.
  destruct (String.eqb (domain g) (domain p)); simpl; [|by rewrite app_nil_r].
  rewrite calculate_jaccard_similarity_ok. simpl.
  destruct (Qle_bool _ _); [reflexivity | by rewrite app_nil_r].
Qed.

(** What it is to be a candidate. *)
Lemma elem_of_candidate_pairs (self : Scorer)
    (gold pred : list SemanticObject) (m : PotentialMatch) :
  m ∈ candidate_pairs self gold pred <->
  exists g p,
    gold !! pm_gold m = Some g /\ pred !! pm_pred m = Some p /\
    domain g = domain p /\
    pm_score m = similarity (evidence_span g) (evidence_span p) /\
    (jaccard_threshold self <= pm_score m)%Q.
Proof.
  unfold candidate_pairs. rewrite list_elem_of_In, in_flat_map. split.
  - intros ([i g] & Hg & Hm). apply in_flat_map in Hm as ([j p] & Hp & Hm).
    apply list_elem_of_In, elem_of_enumerate in Hg, Hp.
    simpl in Hm. unfold candidate_of in Hm.
    destruct (String.eqb_spec (domain g) (domain p)) as [Hd|Hd];
      simpl in Hm; [|done].
    destruct (Qle_bool _ _) eqn:Hle; [|done].
    destruct Hm as [<- | []]. apply Qle_bool_iff in Hle.
    exists g, p. by repeat split.
  - intros (g & p & Hg & Hp & Hd & Hs & Hle).
    destruct m as [[q j] i]. unfold pm_gold, pm_pred, pm_score in *.
    simpl in *. exists (i, g). split.
    { by apply list_elem_of_In, elem_of_enumerate. }
    apply in_flat_map. exists (j, p). split.
    { by apply list_elem_of_In, elem_of_enumerate. }
    simpl. unfold candidate_of. rewrite Hd, String.eqb_refl. simpl.
    rewrite <- Hs. apply Qle_bool_iff in Hle. rewrite Hle. by left.
Qed.

(** ** The sort is a stable descending sort *)

Section Sort.
Context {A : Type} (key : A -> Q).

Lemma insert_reverse_perm (x : A) (l : list A) :
  Permutation (insert_reverse key x l) (x :: l).
Proof.
  induction l as [|y l IH]; simpl; [done|].
  destruct (Qlt_bool (key x) (key y)); [|done].
  rewrite IH. apply perm_swap.
Qed.

Lemma sort_reverse_perm (l : list A) : Permutation (sort_reverse key l) l.
Proof.
  induction l as [|x l IH]; simpl; [done|].
  by rewrite insert_reverse_perm, IH.
Qed.

Lemma insert_reverse_descending (x : A) (l : list A) :
  descending key l -> descending key (insert_reverse key x l).
Proof.
  unfold descending. induction 1 as [|y l Hl IH Hy]; simpl.
  - repeat constructor.
  - destruct (Qlt_bool (key x) (key y)) eqn:E.
    + apply Qlt_bool_iff in E. constructor; [done|].
      apply Forall_forall. intros z Hz.
      rewrite insert_reverse_perm in Hz.
      apply elem_of_cons in Hz as [->|Hz]; [by apply Qlt_le_weak|].
      rewrite Forall_forall in Hy. by apply Hy.
    + apply Qlt_bool_false in E. constructor; [by constructor|].
      constructor; [done|].
      eapply Forall_impl; [exact Hy|]. simpl.
      intros z Hz. by eapply Qle_trans.
Qed.

Lemma sort_reverse_descending (l : list A) :
  descending key (sort_reverse key l).
Proof.
  induction l as [|x l IH]; simpl.
  - constructor.
  - by apply insert_reverse_descending.
Qed.

(** Stability: the elements of one key keep their order. *)
Lemma filter_key_insert_reverse (q : Q) (x : A) (l : list A) :
  List.filter (has_key key q) (insert_reverse key x l)
  = List.filter (has_key key q) (x :: l).
Proof.
  induction l as [|y l IH]; simpl; [done|].
  destruct (Qlt_bool (key x) (key y)) eqn:E; [|done].
  apply Qlt_bool_iff in E. simpl in *. rewrite IH.
  destruct (has_key key q x) eqn:Ex; [|done].
  destruct (has_key key q y) eqn:Ey; [|done].
  unfold has_key in Ex, Ey.
  apply Qeq_bool_iff in Ex, Ey. rewrite Ex, Ey in E.
  by apply Qlt_irrefl in E.
Qed.

Lemma sort_reverse_stable (q : Q) (l : list A) :
  List.filter (has_key key q) (sort_reverse key l)
  = List.filter (has_key key q) l.
Proof.
  induction l as [|x l IH]; simpl; [done|].
  rewrite filter_key_insert_reverse. simpl. by rewrite IH.
Qed.

(** Sorting commutes with keeping the elements that reach a threshold. *)
Lemma filter_reaches_insert_reverse (t : Q) (x : A) (l : list A) :
  descending key l ->
  List.filter (reaches key t) (insert_reverse key x l)
  = if reaches key t x then insert_reverse key x (List.filter (reaches key t) l)
    else List.filter (reaches key t) l.
Proof.
  unfold descending. induction 1 as [|y l Hl IH Hy]; simpl.
  - by destruct (reaches key t x).
  - destruct (Qlt_bool (key x) (key y)) eqn:E; simpl.
    + rewrite IH. apply Qlt_bool_iff in E.
      destruct (reaches key t x) eqn:Ex; [|done].
      assert (reaches key t y = true) as ->.
      { unfold reaches in *. apply Qle_bool_iff in Ex. apply Qle_bool_iff.
        eapply Qle_trans; [exact Ex | by apply Qlt_le_weak]. }
      simpl. apply Qlt_bool_iff in E. by rewrite E.
    + destruct (reaches key t x) eqn:Ex; [|done].
      apply Qlt_bool_false in E.
      assert (Forall (fun z => (key z <= key x)%Q) (y :: l)) as Hall.
      { constructor; [done|]. eapply Forall_impl; [exact Hy|].
        simpl. intros z Hz. by eapply Qle_trans. }
      assert (Forall (fun z => (key z <= key x)%Q)
                     (List.filter (reaches key t) (y :: l))) as Hf.
      { apply Forall_forall. intros z Hz.
        apply list_elem_of_In, filter_In in Hz as [Hz _].
        rewrite Forall_forall in Hall. by apply Hall, list_elem_of_In. }
      change (x :: List.filter (reaches key t) (y :: l)
              = insert_reverse key x (List.filter (reaches key t) (y :: l))).
      destruct (List.filter (reaches key t) (y :: l)) as [|z l']; [done|].
      simpl. inversion Hf as [|? ? Hz _]; subst.
      apply Qlt_bool_false in Hz. by rewrite Hz.
Qed.

Lemma sort_reverse_filter_reaches (t : Q) (l : list A) :
  sort_reverse key (List.filter (reaches key t) l)
  = List.filter (reaches key t) (sort_reverse key l).
Proof.
  induction l as [|x l IH]; simpl; [done|].
  rewrite filter_reaches_insert_reverse by apply sort_reverse_descending.
  destruct (reaches key t x); simpl; by rewrite IH.
Qed.

(** In a descending key list the elements that reach a threshold come first. *)
Lemma descending_filter_reaches_prefix (t : Q) (l : list A) :
  descending key l -> exists l2, l = List.filter (reaches key t) l ++ l2.
Proof.
  unfold descending. induction 1 as [|y l Hl [l2 IH] Hy]; simpl.
  - by exists [].
  - destruct (reaches key t y) eqn:Ey.
    + exists l2. simpl. by rewrite <- IH.
    + exists (y :: l).
      assert (List.filter (reaches key t) l = []) as ->; [|done].
      unfold reaches in *. apply Qle_bool_false in Ey.
      clear IH Hl. induction Hy as [|z l Hz _ IHl]; simpl; [done|].
      assert (Qle_bool t (key z) = false) as ->; [|done].
      apply Qle_bool_false. by eapply Qle_lt_trans.
Qed.
End Sort.

(** ** The greedy walk *)

Lemma greedy_walk_app (l1 l2 c : list PotentialMatch) :
  greedy_walk (l1 ++ l2) c = greedy_walk l2 (greedy_walk l1 c).
Proof. revert c; induction l1 as [|m l1 IH]; intros c; simpl; auto. Qed.

(** The walk only ever appends to what is committed. *)
Lemma greedy_walk_extends (l c : list PotentialMatch) :
  exists ext, greedy_walk l c = c ++ ext.
Proof.
  revert c; induction l as [|m l IH]; intros c; simpl.
  - exists []. by rewrite app_nil_r.
  - destruct (IH (commit c m)) as [ext ->]. unfold commit.
    destruct (bool_decide (consumed m c)); [by exists ext|].
    exists (m :: ext). by rewrite <- app_assoc.
Qed.

(** What is committed keeps the order of the walk. *)
Lemma greedy_walk_sublist (l c : list PotentialMatch) :
  exists ext, greedy_walk l c = c ++ ext /\ sublist ext l.
Proof.
  revert c; induction l as [|m l IH]; intros c; simpl.
  - exists []. by rewrite app_nil_r.
  - destruct (IH (commit c m)) as (ext & -> & Hsub). unfold commit.
    destruct (bool_decide (consumed m c)).
    + exists ext. split; [done | by apply sublist_cons].
    + exists (m :: ext). rewrite <- app_assoc. split; [done|].
      by apply sublist_skip.
Qed.

Lemma greedy_commit_sublist (l : list PotentialMatch) :
  sublist (greedy_commit l) l.
Proof.
  unfold greedy_commit.
  by destruct (greedy_walk_sublist l []) as (ext & -> & Hsub).
Qed.

Lemma greedy_commit_snoc (l : list PotentialMatch) (m : PotentialMatch) :
  greedy_commit (l ++ [m]) = commit (greedy_commit l) m.
Proof. unfold greedy_commit. by rewrite greedy_walk_app. Qed.

Lemma greedy_walk_elem (l c : list PotentialMatch) (m : PotentialMatch) :
  m ∈ greedy_walk l c -> m ∈ c \/ m ∈ l.
Proof.
  revert c; induction l as [|x l IH]; intros c; simpl; [by left|].
  intros Hm. apply IH in Hm as [Hm|Hm]; [|right; by right].
  unfold commit in Hm. destruct (bool_decide (consumed x c)); [by left|].
  apply elem_of_app in Hm as [Hm|Hm]; [by left|].
  apply list_elem_of_singleton in Hm as ->. right; by left.
Qed.

Lemma greedy_commit_elem (l : list PotentialMatch) (m : PotentialMatch) :
  m ∈ greedy_commit l -> m ∈ l.
Proof.
  intros Hm. apply greedy_walk_elem in Hm as [Hm|Hm]; [|done].
  by apply elem_of_nil in Hm.
Qed.

(** No index is consumed twice. *)
Lemma greedy_walk_NoDup (l c : list PotentialMatch) :
  NoDup (pm_gold <$> c) /\ NoDup (pm_pred <$> c) ->
  NoDup (pm_gold <$> greedy_walk l c) /\ NoDup (pm_pred <$> greedy_walk l c).
Proof.
  revert c; induction l as [|m l IH]; intros c [Hg Hp]; simpl; [done|].
  apply IH. unfold commit. destruct (bool_decide_reflect (consumed m c)) as [|Hn];
    [done|].
  unfold consumed in Hn. rewrite !fmap_app. simpl.
  split; apply NoDup_app; (split; [done|]); (split; [|apply NoDup_singleton]);
    intros x Hx Hx'; apply list_elem_of_singleton in Hx' as ->; tauto.
Qed.

(** ** The greedy loop of [_match_objects] computes the walk *)

Section GreedyLoop.
Variables gold pred : list SemanticObject.

Lemma greedy_step_ok (st : MatchState) (c : list PotentialMatch)
    (m : PotentialMatch) :
  in_range gold pred m -> represents gold pred st c ->
  exists st', greedy_step gold pred st m = Ok st' /\
              represents gold pred st' (commit c m).
Proof.
  intros [Hg Hp] [Hpairs Hps Hgs]. destruct m as [[q j] i].
  unfold pm_gold, pm_pred in Hg, Hp. simpl in Hg, Hp.
  unfold greedy_step, commit.
  destruct (bool_decide_reflect (consumed (q, j, i) c)) as [Hc|Hc];
    unfold consumed, pm_gold, pm_pred in Hc; simpl in Hc.
  - exists st. split; [|by constructor].
    rewrite Hps, Hgs.
    destruct (bool_decide_reflect (j ∉ (list_to_set (pm_pred <$> c) : gset nat)))
      as [Hj|Hj]; simpl; [|done].
    destruct (bool_decide_reflect (i ∉ (list_to_set (pm_gold <$> c) : gset nat)))
      as [Hi|Hi]; simpl; [|done].
    rewrite elem_of_list_to_set in Hj, Hi. tauto.
  - rewrite Hps, Hgs.
    rewrite !bool_decide_eq_true_2
      by (rewrite elem_of_list_to_set; unfold pm_gold, pm_pred; tauto).
    simpl. unfold getitem.
    destruct (lookup_lt_is_Some_2 gold i Hg) as [g Eg].
    destruct (lookup_lt_is_Some_2 pred j Hp) as [p Ep].
    rewrite Eg, Ep. simpl. eexists; split; [reflexivity|].
    constructor; simpl.
    + apply Forall2_app; [done|]. by repeat constructor.
    + rewrite fmap_app.
      change (pm_pred <$> [(q, j, i)]) with [j].
      by rewrite list_to_set_snoc_L.
    + rewrite fmap_app.
      change (pm_gold <$> [(q, j, i)]) with [i].
      by rewrite list_to_set_snoc_L.
Qed.

Lemma greedy_loop_ok (l : list PotentialMatch) :
  Forall (in_range gold pred) l ->
  forall st c, represents gold pred st c ->
  exists st', for_loop l (greedy_step gold pred) st = Ok st' /\
              represents gold pred st' (greedy_walk l c).
Proof.
  induction 1 as [|m l Hm Hl IH]; intros st c Hrep; simpl.
  - by exists st.
  - destruct (greedy_step_ok st c m Hm Hrep) as (st1 & -> & Hrep1).
    simpl. by apply IH.
Qed.

Lemma represents_init :
  represents gold pred
    {| matched_pairs := [];
       matched_predicted_indices := ∅;
       matched_gold_indices := ∅ |} [].
Proof. by constructor; simpl; [constructor| |]. Qed.
End GreedyLoop.

(** ** Unmatched objects *)

Lemma filter_ext_elem {A : Type} (P Q : A -> Prop)
    `{forall x, Decision (P x)} `{forall x, Decision (Q x)} (l : list A) :
  (forall x, x ∈ l -> P x <-> Q x) -> filter P l = filter Q l.
Proof.
  induction l as [|x l IH]; intros Hext; [done|].
  rewrite !filter_cons.
  rewrite IH by (intros; apply Hext; by right).
  destruct (decide (P x)) as [HP|HP], (decide (Q x)) as [HQ|HQ]; try done;
    exfalso; apply (Hext x) in HP || apply HP, (Hext x); try done; by left.
Qed.

(** The unmatched objects of [l] and the matched indices partition [l]. *)
Lemma length_not_matched_from (l : list SemanticObject) (n : nat)
    (s : gset nat) :
  (forall i, i ∈ s -> n <= i < n + length l) ->
  length (filter (fun ix : nat * SemanticObject => fst ix ∉ s)
                 (enumerate_from n l)) + size s
  = length l.
Proof.
  revert n s; induction l as [|x l IH]; intros n s Hs; simpl.
  - assert (s = ∅) as ->; [|by rewrite size_empty].
    apply set_eq. intros i. split; [|by intros ?%not_elem_of_empty].
    intros Hi. apply Hs in Hi. simpl in Hi. lia.
  - rewrite filter_cons. simpl. destruct (decide (n ∉ s)) as [Hn|Hn].
    + simpl. rewrite IH; [done|]. intros i Hi.
      pose proof (Hs i Hi). simpl in *.
      assert (i <> n) by (intros ->; done). lia.
    + apply dec_stable in Hn.
      rewrite (filter_ext_elem _
                 (fun ix : nat * SemanticObject => fst ix ∉ s ∖ {[n]})).
      * pose proof (union_difference_singleton_L n s Hn) as E.
        apply (f_equal size) in E.
        rewrite size_union, size_singleton in E
          by (apply disjoint_singleton_l, not_elem_of_difference; right;
              by apply elem_of_singleton).
        rewrite E, Nat.add_succ_r. simpl. f_equal.
        apply IH. intros i Hi. apply elem_of_difference in Hi as [Hi Hne].
        pose proof (Hs i Hi). simpl in *.
        rewrite not_elem_of_singleton in Hne. lia.
      * intros [i y] Hi. apply elem_of_enumerate_from in Hi as [Hi _].
        simpl. rewrite elem_of_difference, not_elem_of_singleton.
        split; [tauto|]. intros Hnot Hin. apply Hnot. split; [done|lia].
Qed.

Lemma length_not_matched (l : list SemanticObject) (s : gset nat) :
  (forall i, i ∈ s -> i < length l) ->
  length (not_matched l s) + size s = length l.
Proof.
  intros Hs. unfold not_matched, enumerate. rewrite length_fmap.
  apply length_not_matched_from. intros i Hi. apply Hs in Hi. lia.
Qed.

(** ** [_match_objects] as sort-then-walk over the candidates *)

Lemma candidate_in_range (self : Scorer) (gold pred : list SemanticObject)
    (m : PotentialMatch) :
  m ∈ candidate_pairs self gold pred -> in_range gold pred m.
Proof.
  intros (g & p & Hg & Hp & _)%elem_of_candidate_pairs.
  split; eapply lookup_lt_Some; eassumption.
Qed.

Lemma elem_of_sorted_candidates (self : Scorer)
    (gold pred : list SemanticObject) (m : PotentialMatch) :
  m ∈ sorted_candidates self gold pred <-> m ∈ candidate_pairs self gold pred.
Proof. unfold sorted_candidates. by rewrite sort_reverse_perm. Qed.

Lemma committed_is_candidate (self : Scorer)
    (gold pred : list SemanticObject) (m : PotentialMatch) :
  m ∈ committed_candidates self gold pred ->
  m ∈ candidate_pairs self gold pred.
Proof.
  intros Hm. by apply elem_of_sorted_candidates, greedy_commit_elem.
Qed.

Lemma match_objects_ok (self : Scorer) (gold pred : list SemanticObject) :
  exists pairs,
    Forall2 (pair_of gold pred) (committed_candidates self gold pred) pairs /\
    _match_objects self gold pred
    = Ok (pairs,
          not_matched pred
            (list_to_set (pm_pred <$> committed_candidates self gold pred)),
          not_matched gold
            (list_to_set (pm_gold <$> committed_candidates self gold pred))).
Proof.
  unfold _match_objects. rewrite collect_potential_matches_ok. simpl.
  destruct (greedy_loop_ok gold pred (sorted_candidates self gold pred))
    with (st := {| matched_pairs := [];
                   matched_predicted_indices := ∅;
                   matched_gold_indices := ∅ |})
         (c := @nil PotentialMatch)
    as (st & Hloop & [Hpairs Hps Hgs]).
  - apply Forall_forall. intros m Hm.
    by eapply candidate_in_range, elem_of_sorted_candidates.
  - apply represents_init.
  - unfold sorted_candidates in Hloop. rewrite Hloop. simpl.
    exists (matched_pairs st). split; [done|]. by rewrite Hps, Hgs.
Qed.

(** The number of committed candidates is the number of consumed gold
    indices and of consumed predicted indices. *)
Lemma size_committed (self : Scorer) (gold pred : list SemanticObject) :
  let c := committed_candidates self gold pred in
  size (list_to_set (pm_gold <$> c) : gset nat) = length c /\
  size (list_to_set (pm_pred <$> c) : gset nat) = length c.
Proof.
  simpl. unfold committed_candidates, greedy_commit.
  destruct (greedy_walk_NoDup (sorted_candidates self gold pred) [])
    as [Hg Hp]; [split; constructor|].
  rewrite !size_list_to_set, !length_fmap by done. done.
Qed.

Lemma committed_in_range (self : Scorer) (gold pred : list SemanticObject) :
  let c := committed_candidates self gold pred in
  (forall i, i ∈ (list_to_set (pm_gold <$> c) : gset nat) -> i < length gold) /\
  (forall j, j ∈ (list_to_set (pm_pred <$> c) : gset nat) -> j < length pred).
Proof.
  simpl. split; intros i Hi; apply elem_of_list_to_set, list_elem_of_fmap in Hi
    as (m & -> & Hm);
    apply committed_is_candidate, candidate_in_range in Hm; apply Hm.
Qed.

(** The counts of one call to the matcher. *)
Lemma match_objects_counts (self : Scorer) (gold pred : list SemanticObject) :
  exists pairs fps fns,
    _match_objects self gold pred = Ok (pairs, fps, fns) /\
    length pairs = length (committed_candidates self gold pred) /\
    length pairs + length fns = length gold /\
    length pairs + length fps = length pred.
Proof.
  destruct (match_objects_ok self gold pred) as (pairs & Hpairs & Hm).
  do 3 eexists. split; [exact Hm|].
  apply Forall2_length in Hpairs.
  destruct (size_committed self gold pred) as [Hsg Hsp].
  destruct (committed_in_range self gold pred) as [Hrg Hrp].
  pose proof (length_not_matched gold _ Hrg).
  pose proof (length_not_matched pred _ Hrp).
  lia.
Qed.

(** ** [score_journal] and [overall_scores] never raise *)

Lemma guarded_int_truediv (a b : Z) :
  (if (0 <? b)%Z then int_truediv a b else Ok 0%Q) = Ok (ratio a b).
Proof.
  unfold ratio. destruct (Z.ltb_spec 0 b); [|reflexivity].
  apply int_truediv_ok. lia.
Qed.

Lemma guarded_float_int_truediv (a : Q) (b : Z) :
  (if (0 <? b)%Z then float_int_truediv a b else Ok 0%Q)
  = Ok (weighted_ratio a b).
Proof.
  unfold weighted_ratio. destruct (Z.ltb_spec 0 b); [|reflexivity].
  apply float_int_truediv_ok. lia.
Qed.

Lemma guarded_f1 (p r : Q) :
  (if Qlt_bool 0 (p + r) then float_truediv (2 * p * r) (p + r) else Ok 0%Q)
  = Ok (f1_of p r).
Proof.
  unfold f1_of. destruct (Qlt_bool 0 (p + r)) eqn:E; [|reflexivity].
  unfold float_truediv. destruct (Qeq_bool (p + r) 0) eqn:E0; [|reflexivity].
  apply Qlt_bool_iff in E. apply Qeq_bool_iff in E0. rewrite E0 in E.
  by apply Qlt_irrefl in E.
Qed.

Lemma score_journal_ok (self : Scorer) (journal_text : string)
    (gold pred : list SemanticObject) pairs fps fns :
  _match_objects self gold pred = Ok (pairs, fps, fns) ->
  score_journal self journal_text gold pred
  = Ok (journal_score_of journal_text pred pairs fps fns).
Proof.
  intros Hm. unfold score_journal. rewrite Hm. simpl.
  rewrite !guarded_int_truediv. simpl.
  rewrite guarded_f1. reflexivity.
Qed.

Lemma score_journal_total (self : Scorer) (journal_text : string)
    (gold pred : list SemanticObject) :
  exists pairs fps fns,
    _match_objects self gold pred = Ok (pairs, fps, fns) /\
    score_journal self journal_text gold pred
    = Ok (journal_score_of journal_text pred pairs fps fns) /\
    (len pairs + len fns = len gold)%Z /\
    (len pairs + len fps = len pred)%Z.
Proof.
  destruct (match_objects_counts self gold pred)
    as (pairs & fps & fns & Hm & _ & Hg & Hp).
  exists pairs, fps, fns. split; [done|]. split; [by apply score_journal_ok|].
  unfold len. lia.
Qed.

Lemma overall_scores_ok (all_journal_scores : list JournalScore) :
  overall_scores all_journal_scores
  = Ok (overall_scores_of all_journal_scores).
Proof.
  unfold overall_scores.
  rewrite !guarded_int_truediv. simpl.
  rewrite guarded_f1. simpl.
  rewrite !guarded_float_int_truediv. reflexivity.
Qed.

(** ** Raising the threshold *)

Lemma filter_flat_map {A B : Type} (P : B -> bool) (f : A -> list B)
    (l : list A) :
  List.filter P (flat_map f l) = flat_map (fun x => List.filter P (f x)) l.
Proof.
  induction l as [|x l IH]; simpl; [done|].
  by rewrite List.filter_app, IH.
Qed.

Lemma candidate_of_raise (s1 s2 : Scorer) i g j p :
  (jaccard_threshold s1 <= jaccard_threshold s2)%Q ->
  candidate_of s2 i g j p
  = List.filter (reaches pm_score (jaccard_threshold s2))
                (candidate_of s1 i g j p).
Proof.
  intros Hle. unfold candidate_of.
  destruct (String.eqb (domain g) (domain p)); simpl; [|done].
  set (q := similarity (evidence_span g) (evidence_span p)).
  destruct (Qle_bool (jaccard_threshold s2) q) eqn:E2.
  - assert (Qle_bool (jaccard_threshold s1) q = true) as ->.
    { apply Qle_bool_iff. apply Qle_bool_iff in E2. by eapply Qle_trans. }
    simpl. unfold reaches, pm_score. simpl. by rewrite E2.
  - destruct (Qle_bool (jaccard_threshold s1) q); simpl; [|done].
    unfold reaches, pm_score. simpl. by rewrite E2.
Qed.

Lemma candidate_pairs_raise (s1 s2 : Scorer) (gold pred : list SemanticObject) :
  (jaccard_threshold s1 <= jaccard_threshold s2)%Q ->
  candidate_pairs s2 gold pred
  = List.filter (reaches pm_score (jaccard_threshold s2))
                (candidate_pairs s1 gold pred).
Proof.
  intros Hle. unfold candidate_pairs. rewrite filter_flat_map.
  apply flat_map_ext. intros [i g]. rewrite filter_flat_map.
  apply flat_map_ext. intros [j p]. simpl. by apply candidate_of_raise.
Qed.

(** With a higher threshold the sorted candidates are a prefix of the sorted
    candidates of the lower threshold, so the walk commits a prefix. *)
Lemma committed_candidates_raise (s1 s2 : Scorer)
    (gold pred : list SemanticObject) :
  (jaccard_threshold s1 <= jaccard_threshold s2)%Q ->
  exists ext,
    committed_candidates s1 gold pred
    = committed_candidates s2 gold pred ++ ext.
Proof.
  intros Hle. unfold committed_candidates, sorted_candidates.
  rewrite (candidate_pairs_raise s1 s2) by done.
  rewrite sort_reverse_filter_reaches.
  destruct (descending_filter_reaches_prefix pm_score (jaccard_threshold s2)
              (sort_reverse pm_score (candidate_pairs s1 gold pred)))
    as [l2 Hl2]; [apply sort_reverse_descending|].
  destruct (greedy_walk_extends l2
              (greedy_commit
                 (List.filter (reaches pm_score (jaccard_threshold s2))
                    (sort_reverse pm_score (candidate_pairs s1 gold pred)))))
    as [ext Hext].
  exists ext. rewrite <- Hext. unfold greedy_commit.
  by rewrite <- greedy_walk_app, <- Hl2.
Qed.

Lemma pair_of_functional (gold pred : list SemanticObject) m gp1 gp2 :
  pair_of gold pred m gp1 -> pair_of gold pred m gp2 -> gp1 = gp2.
Proof.
  intros [Hg1 Hp1] [Hg2 Hp2]. destruct gp1, gp2. simpl in *. congruence.
Qed.

(** ** Generation order; uniqueness of the stable sort *)

Lemma enumerate_from_sorted {A : Type} (l : list A) (n : nat) :
  StronglySorted (fun a b : nat * A => fst a < fst b) (enumerate_from n l).
Proof.
  revert n; induction l as [|x l IH]; intros n; simpl; constructor; [done|].
  apply Forall_forall. intros [i y] Hi.
  apply elem_of_enumerate_from in Hi as [Hi _]. simpl. lia.
Qed.

Lemma StronglySorted_flat_map {A B : Type} (R : B -> B -> Prop)
    (S : A -> A -> Prop) (f : A -> list B) (l : list A) :
  StronglySorted S l ->
  (forall x, StronglySorted R (f x)) ->
  (forall x y a b, S x y -> a ∈ f x -> b ∈ f y -> R a b) ->
  StronglySorted R (flat_map f l).
Proof.
  intros Hl Hf HR. induction Hl as [|x l Hl IH Hx]; simpl; [constructor|].
  apply StronglySorted_app_2; [|done|done].
  intros a b Ha Hb. apply list_elem_of_In, in_flat_map in Hb as (y & Hy & Hb).
  rewrite Forall_forall in Hx.
  apply (HR x y);
    [apply Hx; by apply list_elem_of_In | done | by apply list_elem_of_In].
Qed.

Lemma elem_of_candidate_of (self : Scorer) i g j p (m : PotentialMatch) :
  m ∈ candidate_of self i g j p -> pm_gold m = i /\ pm_pred m = j.
Proof.
  unfold candidate_of. destruct (_ && _); [|by intros ?%elem_of_nil].
  intros ->%list_elem_of_singleton. by split.
Qed.

Lemma candidate_of_sorted (self : Scorer) (R : relation PotentialMatch)
    i g j p :
  StronglySorted R (candidate_of self i g j p).
Proof. unfold candidate_of. destruct (_ && _); repeat constructor. Qed.

Lemma candidate_pairs_generation_order (self : Scorer)
    (gold pred : list SemanticObject) :
  StronglySorted generation_order (candidate_pairs self gold pred).
Proof.
  unfold candidate_pairs.
  eapply StronglySorted_flat_map; [apply enumerate_from_sorted| |].
  - intros [i g]. simpl.
    eapply StronglySorted_flat_map; [apply enumerate_from_sorted| |].
    + intros [j p]. apply candidate_of_sorted.
    + intros [j1 p1] [j2 p2] a b Hlt Ha Hb. simpl in *.
      apply elem_of_candidate_of in Ha as [Ha1 Ha2], Hb as [Hb1 Hb2].
      right. split; congruence || lia.
  - intros [i1 g1] [i2 g2] a b Hlt Ha Hb. simpl in *.
    apply list_elem_of_In, in_flat_map in Ha as ([j1 p1] & _ & Ha).
    apply list_elem_of_In, in_flat_map in Hb as ([j2 p2] & _ & Hb).
    apply list_elem_of_In, elem_of_candidate_of in Ha as [Ha _], Hb as [Hb _].
    left. simpl in *. lia.
Qed.

Lemma StronglySorted_irrefl_NoDup {A : Type} (R : A -> A -> Prop)
    (l : list A) :
  (forall x, ~ R x x) -> StronglySorted R l -> NoDup l.
Proof.
  intros Hirr. induction 1 as [|x l Hl IH Hx]; constructor; [|done].
  intros Hin. rewrite Forall_forall in Hx. by apply (Hirr x), Hx.
Qed.

Lemma candidate_pairs_NoDup (self : Scorer) (gold pred : list SemanticObject) :
  NoDup (candidate_pairs self gold pred).
Proof.
  eapply StronglySorted_irrefl_NoDup;
    [|apply candidate_pairs_generation_order].
  intros m [H|[_ H]]; lia.
Qed.

Lemma has_key_refl {A : Type} (key : A -> Q) (x : A) :
  has_key key (key x) x = true.
Proof. unfold has_key. apply Qeq_bool_iff. reflexivity. Qed.

(** Two descending lists with the same elements of every key, in the same
    order, are equal: the result of a stable sort is unique. *)
Lemma stable_descending_unique {A : Type} (key : A -> Q) (l1 l2 : list A) :
  descending key l1 -> descending key l2 ->
  (forall q, List.filter (has_key key q) l1 = List.filter (has_key key q) l2) ->
  l1 = l2.
Proof.
  intros H1; revert l2.
  induction H1 as [|x l1 Hl1 IH Hx]; intros l2 H2 Hf.
  - destruct l2 as [|y l2]; [done|].
    specialize (Hf (key y)). simpl in Hf. by rewrite has_key_refl in Hf.
  - destruct H2 as [|y l2 Hl2 Hy].
    { specialize (Hf (key x)). simpl in Hf. by rewrite has_key_refl in Hf. }
    assert (x = y) as <-.
    { pose proof (Hf (key x)) as Fx. pose proof (Hf (key y)) as Fy.
      simpl in Fx, Fy. rewrite has_key_refl in Fx, Fy.
      destruct (has_key key (key x) y) eqn:Eyx; [by inversion Fx|].
      destruct (has_key key (key y) x) eqn:Exy.
      { unfold has_key in *. apply Qeq_bool_iff in Exy.
        apply not_true_iff_false in Eyx. exfalso. apply Eyx.
        apply Qeq_bool_iff. by symmetry. }
      assert (In x l2) as Hxin.
      { eapply (proj1 (filter_In _ _ _)). rewrite <- Fx. by left. }
      assert (In y l1) as Hyin.
      { eapply (proj1 (filter_In _ _ _)). rewrite Fy. by left. }
      rewrite Forall_forall in Hx, Hy.
      apply list_elem_of_In, Hy in Hxin. apply list_elem_of_In, Hx in Hyin.
      unfold has_key in Exy. apply not_true_iff_false in Exy.
      exfalso. apply Exy, Qeq_bool_iff. by apply Qle_antisym. }
    f_equal. apply IH; [done|]. intros q. specialize (Hf q). simpl in Hf.
    destruct (has_key key q x); [by inversion Hf | done].
Qed.

Lemma StronglySorted_filter {A : Type} (R : A -> A -> Prop)
    (f : A -> bool) (l : list A) :
  StronglySorted R l -> StronglySorted R (List.filter f l).
Proof.
  induction 1 as [|x l Hl IH Hx]; simpl; [constructor|].
  destruct (f x); [|done]. constructor; [done|].
  apply Forall_forall. intros y Hy.
  apply list_elem_of_In, filter_In in Hy as [Hy _].
  rewrite Forall_forall in Hx. by apply Hx, list_elem_of_In.
Qed.

(** In a stable sort of a list that is in strict [R] order, two elements of
    equal key come in [R] order. *)
Lemma stable_ties_in_order {A : Type} (key : A -> Q) (R : A -> A -> Prop)
    (l sorted l1 l2 l3 : list A) (x y : A) :
  StronglySorted R l ->
  (forall q, List.filter (has_key key q) sorted = List.filter (has_key key q) l) ->
  sorted = l1 ++ x :: l2 ++ y :: l3 ->
  (key x == key y)%Q ->
  R x y.
Proof.
  intros Hl Hst -> Hxy.
  apply (StronglySorted_filter R (has_key key (key x))) in Hl.
  rewrite <- Hst in Hl. rewrite List.filter_app in Hl. simpl in Hl.
  rewrite has_key_refl, List.filter_app in Hl. simpl in Hl.
  assert (has_key key (key x) y = true) as Hy.
  { unfold has_key. apply Qeq_bool_iff. by symmetry. }
  rewrite Hy in Hl.
  apply StronglySorted_app_1_r, StronglySorted_cons in Hl as [Hl _].
  rewrite Forall_forall in Hl. apply Hl.
  apply elem_of_app. right. by left.
Qed.

Lemma sorted_candidates_stable (self : Scorer)
    (gold pred : list SemanticObject) :
  stable_descending (candidate_pairs self gold pred)
                    (sorted_candidates self gold pred).
Proof.
  unfold sorted_candidates. split; [apply sort_reverse_perm|].
  split; [apply sort_reverse_descending | intros q; apply sort_reverse_stable].
Qed.

(** In a walk over a list without repetitions, a candidate is committed
    exactly when what was committed before it has consumed neither of its
    indices. *)
Lemma greedy_commit_iff (l1 l2 : list PotentialMatch) (m : PotentialMatch) :
  NoDup (l1 ++ m :: l2) ->
  m ∈ greedy_commit (l1 ++ m :: l2) <-> ~ consumed m (greedy_commit l1).
Proof.
  intros Hnd. apply NoDup_app in Hnd as (_ & Hdisj & Hnd2).
  apply NoDup_cons in Hnd2 as [Hm2 _].
  unfold greedy_commit. rewrite greedy_walk_app. simpl. unfold commit.
  destruct (bool_decide_reflect (consumed m (greedy_walk l1 []))) as [Hc|Hc].
  - split; [|done]. intros Hin. exfalso.
    apply greedy_walk_elem in Hin as [Hin|Hin]; [|done].
    apply greedy_commit_elem in Hin. by apply (Hdisj m); [|left].
  - split; [done|]. intros _.
    destruct (greedy_walk_extends l2 (greedy_walk l1 [] ++ [m])) as [ext ->].
    apply elem_of_app. left. apply elem_of_app. right. by left.
Qed.

(** ** Substrings and coverage *)

Lemma startswith_spec (s t : string) :
  startswith s t = true <-> exists after, t = s +:+ after.
Proof.
  revert t; induction s as [|a s IH]; intros t; simpl.
  - split; [by exists t | done].
  - destruct t as [|b t].
    + split; [done | by intros [after Ha]].
    + rewrite andb_true_iff, IH, Ascii.eqb_eq. split.
      * intros [-> [after ->]]. by exists after.
      * intros [after Ha]. inversion Ha; subst. split; [done | by exists after].
Qed.

Lemma py_in_spec (s t : string) : py_in s t = true <-> occurs_in s t.
Proof.
  unfold occurs_in. induction t as [|c t IH]; simpl.
  - rewrite orb_false_r, startswith_spec. split.
    + intros [after Ha]. by exists EmptyString, after.
    + intros (before & after & Ha). destruct before; [by exists after|done].
  - rewrite orb_true_iff, startswith_spec, IH. split.
    + intros [[after Ha] | (before & after & Ha)].
      * by exists EmptyString, after.
      * exists (String c before), after. simpl. by rewrite Ha.
    + intros (before & after & Ha). destruct before as [|c' before].
      * left. by exists after.
      * right. simpl in Ha. inversion Ha; subst. by exists before, after.
Qed.

(** The empty string occurs in every text. *)
Lemma py_in_empty (t : string) : py_in EmptyString t = true.
Proof. destruct t; reflexivity. Qed.

Lemma count_valid_foldl (text : string) (l : list SemanticObject) (acc : Z) :
  foldl (fun valid_evidence_spans pred_obj =>
           if py_in (evidence_span pred_obj) text
           then (valid_evidence_spans + 1)%Z else valid_evidence_spans)
        acc l
  = (acc + len (grounded text l))%Z.
Proof.
  unfold len, grounded. revert acc; induction l as [|p l IH]; intros acc; simpl.
  - lia.
  - rewrite IH, filter_cons.
    destruct (py_in (evidence_span p) text); simpl; lia.
Qed.

Lemma count_valid_grounded (text : string) (l : list SemanticObject) :
  count_valid_evidence_spans text l = len (grounded text l).
Proof. unfold count_valid_evidence_spans. by rewrite count_valid_foldl. Qed.

Lemma count_valid_insert (text : string) (l1 l2 : list SemanticObject)
    (p : SemanticObject) :
  count_valid_evidence_spans text (l1 ++ p :: l2)
  = (count_valid_evidence_spans text (l1 ++ l2) + contribution text p)%Z.
Proof.
  rewrite !count_valid_grounded. unfold grounded, len, contribution.
  rewrite !filter_app, filter_cons.
  destruct (py_in (evidence_span p) text);
    rewrite !length_app; simpl; lia.
Qed.

Lemma coverage_is_grounded_fraction (text : string)
    (pred : list SemanticObject) :
  ratio (count_valid_evidence_spans text pred) (len pred)
  = grounded_fraction text pred.
Proof.
  rewrite count_valid_grounded. unfold ratio, grounded_fraction.
  destruct pred as [|p pred]; [reflexivity|].
  destruct (Z.ltb_spec 0 (len (p :: pred))) as [_|H]; [reflexivity|].
  unfold len in H. simpl in H. lia.
Qed.

(** ** Zero denominators *)

Lemma ratio_nonpositive (a b : Z) : (b <= 0)%Z -> ratio a b = 0%Q.
Proof. intros Hb. unfold ratio. by destruct (Z.ltb_spec 0 b); [lia|]. Qed.

Lemma f1_of_zero (p r : Q) : (p + r == 0)%Q -> f1_of p r = 0%Q.
Proof.
  intros H. unfold f1_of. destruct (Qlt_bool 0 (p + r)) eqn:E; [|done].
  apply Qlt_bool_iff in E. rewrite H in E. by apply Qlt_irrefl in E.
Qed.

(** ** Sums and corpus totals *)

Lemma sum_float_sigma {A : Type} (f : A -> Q) (l : list A) :
  (sum_float f l == sigma f l)%Q.
Proof.
  unfold sum_float.
  assert (forall acc, (foldl (fun acc s => acc + f s) acc l
                       == acc + sigma f l)%Q) as H.
  { induction l as [|x l IH]; intros acc; simpl.
    - by rewrite Qplus_0_r.
    - rewrite IH. by rewrite Qplus_assoc. }
  rewrite H. apply Qplus_0_l.
Qed.

Lemma sum_int_sigma {A : Type} (f : A -> Z) (l : list A) :
  sum_int f l = sigma_int f l.
Proof.
  unfold sum_int.
  assert (forall acc, foldl (fun acc s => acc + f s)%Z acc l
                      = (acc + sigma_int f l)%Z) as H.
  { induction l as [|x l IH]; intros acc; simpl; [lia|]. rewrite IH. lia. }
  by rewrite H.
Qed.

Lemma sigma_int_nonneg {A : Type} (f : A -> Z) (l : list A) :
  Forall (fun x => (0 <= f x)%Z) l -> (0 <= sigma_int f l)%Z.
Proof. induction 1; simpl; lia. Qed.


Lemma ratio_times_denominator (a b : Z) :
  (0 <= b)%Z -> (b = 0 -> a = 0)%Z ->
  (ratio a b * inject_Z b == inject_Z a)%Q.
Proof.
  intros Hb Ha. unfold ratio. destruct (Z.ltb_spec 0 b) as [Hlt|Hge].
  - field. unfold Qeq. simpl. lia.
  - assert (b = 0%Z) as -> by lia. rewrite Ha by done. reflexivity.
Qed.

Lemma score_journal_retains_counts (scorer : Scorer) (j : Journal) :
  exists s,
    score_journal scorer (journal_text_of j) (gold_of j) (predicted_of j)
    = Ok s /\
    retains_counts j s.
Proof.
  destruct (score_journal_total scorer (journal_text_of j) (gold_of j)
              (predicted_of j))
    as (pairs & fps & fns & _ & Hs & _ & Hp).
  eexists. split; [exact Hs|]. unfold retains_counts. simpl.
  split; [exact Hp|]. rewrite Hp.
  apply ratio_times_denominator; [unfold len; lia|].
  unfold len. intros H. destruct (predicted_of j); [reflexivity|].
  simpl in H. lia.
Qed.

Lemma score_all_journals_ok (scorer : Scorer) (journals : list Journal) :
  exists scores,
    score_all_journals scorer journals = Ok scores /\
    Forall2 retains_counts journals scores.
Proof.
  unfold score_all_journals.
  assert (forall acc, exists scores,
            for_loop journals
              (fun all_journal_scores j =>
                 score ← score_journal scorer (journal_text_of j) (gold_of j)
                                       (predicted_of j);
                 Ok (all_journal_scores ++ [score])) acc
            = Ok (acc ++ scores) /\
            Forall2 retains_counts journals scores) as H.
  { induction journals as [|j journals IH]; intros acc; simpl.
    - exists []. by rewrite app_nil_r.
    - destruct (score_journal_retains_counts scorer j) as (s & -> & Hs).
      simpl. destruct (IH (acc ++ [s])) as (scores & -> & Hscores).
      exists (s :: scores). rewrite <- app_assoc. split; [done|].
      by constructor. }
  destruct (H []) as (scores & Hloop & Hscores). by exists scores.
Qed.

Lemma retained_totals (journals : list Journal) (scores : list JournalScore) :
  Forall2 retains_counts journals scores ->
  sigma_int (fun s => (tp s + fp s)%Z) scores
  = sigma_int (fun j => len (predicted_of j)) journals /\
  (sigma (fun s => evidence_coverage_rate s * inject_Z (tp s + fp s)) scores
   == inject_Z
        (sigma_int (fun j => count_valid_evidence_spans (journal_text_of j)
                                                        (predicted_of j))
                   journals))%Q.
Proof.
  induction 1 as [|j s journals scores [Hn Hv] _ [IHn IHv]]; simpl.
  - split; reflexivity.
  - split; [lia|]. by rewrite Hv, IHv, inject_Z_plus.
Qed.

(** * The claims *)



(** C2. For every gold sequence and every predicted sequence the matcher
    returns, and its counts satisfy tp + fn = |gold| and tp + fp = |predicted|,
    tp being the number of matched pairs, fp the number of unmatched
    predicted objects and fn the number of unmatched gold objects; the same
    holds of the counts that [score_journal] reports. *)
Theorem C2_counts_partition_inputs (self : Scorer) (journal_text : string)
    (gold pred : list SemanticObject) :
  exists pairs fps fns s,
    _match_objects self gold pred = Ok (pairs, fps, fns) /\
    length pairs + length fns = length gold /\
    length pairs + length fps = length pred /\
    score_journal self journal_text gold pred = Ok s /\
    tp s = len pairs /\ fp s = len fps /\ fn s = len fns /\
    (tp s + fn s = len gold)%Z /\ (tp s + fp s = len pred)%Z.
Proof.
  destruct (match_objects_counts self gold pred)
    as (pairs & fps & fns & Hm & _ & Hg & Hp).
  exists pairs, fps, fns, (journal_score_of journal_text pred pairs fps fns).
  split; [done|]. split; [done|]. split; [done|].
  split; [by apply score_journal_ok|]. simpl. unfold len.
  repeat split; lia.
Qed.

(** C3. For fixed gold and predicted inputs and thresholds t1 <= t2, the pairs
    matched with threshold t2 are an initial segment of the pairs matched
    with threshold t1: raising the threshold removes matches and adds none,
    so tp does not increase. *)
Theorem C3_tp_monotone_in_threshold (s1 s2 : Scorer)
    (gold pred : list SemanticObject) :
  (jaccard_threshold s1 <= jaccard_threshold s2)%Q ->
  exists pairs1 fps1 fns1 pairs2 fps2 fns2 removed,
    _match_objects s1 gold pred = Ok (pairs1, fps1, fns1) /\
    _match_objects s2 gold pred = Ok (pairs2, fps2, fns2) /\
    pairs1 = pairs2 ++ removed /\
    length pairs2 <= length pairs1.
Proof.
  intros Hle.
  destruct (match_objects_ok s1 gold pred) as (pairs1 & Hpairs1 & Hm1).
  destruct (match_objects_ok s2 gold pred) as (pairs2 & Hpairs2 & Hm2).
  destruct (committed_candidates_raise s1 s2 gold pred Hle) as [ext Hext].
  rewrite Hext in Hpairs1.
  apply Forall2_app_inv_l in Hpairs1 as (k1 & k2 & Hk1 & Hk2 & ->).
  assert (k1 = pairs2) as ->.
  { eapply Forall2_unique; [exact Hk1 | exact Hpairs2 |].
    intros m gp1 gp2. apply pair_of_functional. }
  do 6 eexists. exists k2. split; [exact Hm1|]. split; [exact Hm2|].
  split; [done|]. rewrite length_app. lia.
Qed.

Lemma C3_tp_monotone_in_threshold_witness :
  (jaccard_threshold Scorer_default <= 3 # 4)%Q /\
  exists pairs1 fps1 fns1 pairs2 fps2 fns2 removed,
    _match_objects Scorer_default [example_gold] [example_pred]
    = Ok (pairs1, fps1, fns1) /\
    _match_objects {| jaccard_threshold := 3 # 4 |}
                   [example_gold] [example_pred]
    = Ok (pairs2, fps2, fns2) /\
    pairs1 = pairs2 ++ removed /\
    length pairs2 <= length pairs1.
Proof.
  assert ((jaccard_threshold Scorer_default <= 3 # 4)%Q) as Hle.
  { unfold Qle. simpl. lia. }
  split; [exact Hle|].
  apply (C3_tp_monotone_in_threshold
           Scorer_default {| jaccard_threshold := 3 # 4 |}
           [example_gold] [example_pred]).
  exact Hle.
Defined.

(** C4. The matcher is the specified greedy algorithm, and its output is
    determined by its inputs: the candidates are exactly the index pairs that
    pass the domain gate and the threshold gate, generated with the gold index
    in the outer loop and the predicted index in the inner loop; they are
    sorted by weight in descending order by a stable sort, that sorted list
    is the only one there is, and in it two candidates of equal weight come
    in generation order; walking it, a candidate is committed
    exactly when no candidate committed before it has consumed its gold index
    or its predicted index; the committed candidates, in the order of the
    walk, are the matched pairs, and the objects whose index was never
    consumed are the false positives and the false negatives. *)
Theorem C4_matcher_is_stable_greedy (self : Scorer)
    (gold pred : list SemanticObject) :
  let candidates := candidate_pairs self gold pred in
  let sorted := sorted_candidates self gold pred in
  let committed := committed_candidates self gold pred in
  (forall m, m ∈ candidates <-> passes_gates self gold pred m) /\
  StronglySorted generation_order candidates /\
  stable_descending candidates sorted /\
  (forall sorted', stable_descending candidates sorted' -> sorted' = sorted) /\
  (forall l1 m1 l2 m2 l3,
     sorted = l1 ++ m1 :: l2 ++ m2 :: l3 ->
     (pm_score m1 == pm_score m2)%Q -> generation_order m1 m2) /\
  sublist committed sorted /\
  (forall l1 m l2, sorted = l1 ++ m :: l2 ->
     (m ∈ committed <-> ~ consumed m (greedy_commit l1))) /\
  exists pairs,
    Forall2 (pair_of gold pred) committed pairs /\
    _match_objects self gold pred
    = Ok (pairs,
          not_matched pred (list_to_set (pm_pred <$> committed)),
          not_matched gold (list_to_set (pm_gold <$> committed))).
Proof.
  intros candidates sorted committed.
  pose proof (sorted_candidates_stable self gold pred) as Hst.
  split; [apply elem_of_candidate_pairs|].
  split; [apply candidate_pairs_generation_order|].
  split; [exact Hst|].
  split.
  { intros sorted' (_ & Hd' & Hf'). destruct Hst as (_ & Hd & Hf).
    apply (stable_descending_unique pm_score); [done|done|].
    intros q. by rewrite Hf', Hf. }
  split.
  { intros l1 m1 l2 m2 l3 Heq Hw. destruct Hst as (_ & _ & Hf).
    eapply (stable_ties_in_order pm_score); [|exact Hf|exact Heq|exact Hw].
    apply candidate_pairs_generation_order. }
  split; [apply greedy_commit_sublist|].
  split; [|apply match_objects_ok].
  intros l1 m l2 Heq. unfold committed, committed_candidates.
  fold sorted. rewrite Heq. apply greedy_commit_iff. rewrite <- Heq.
  unfold sorted, sorted_candidates. rewrite sort_reverse_perm.
  apply candidate_pairs_NoDup.
Qed.

Lemma C4_matcher_is_stable_greedy_witness :
  let committed :=
    committed_candidates Scorer_default [example_gold; example_gold]
                         [example_pred] in
  ((2 # 3)%Q, 0, 0) ∈ committed /\
  ~ ((2 # 3)%Q, 0, 1) ∈ committed /\
  generation_order ((2 # 3)%Q, 0, 0) ((2 # 3)%Q, 0, 1).
Proof.
  destruct (C4_matcher_is_stable_greedy
              Scorer_default [example_gold; example_gold] [example_pred])
    as (_ & _ & _ & _ & Hties & _ & Hiff & _).
  split; [|split].
  - apply (Hiff [] _ [((2 # 3)%Q, 0, 1)]).
    + vm_compute. reflexivity.
    + intros [H|H]; inversion H.
  - intros Hin. apply (Hiff [((2 # 3)%Q, 0, 0)] _ []) in Hin.
    + apply Hin. right. vm_compute. constructor.
    + vm_compute. reflexivity.
  - apply (Hties [] _ [] _ []).
    + vm_compute. reflexivity.
    + reflexivity.
Defined.

(** C5. The similarity function is symmetric for all texts; the similarity of
    a text with itself is 1 (for every text, the non-empty ones included);
    and two empty texts have similarity 1, returned as such and not computed
    by a division. *)
Theorem C5_similarity_symmetric_reflexive (a b : string) :
  calculate_jaccard_similarity a b = calculate_jaccard_similarity b a /\
  (exists q, calculate_jaccard_similarity a a = Ok q /\ (q == 1)%Q) /\
  calculate_jaccard_similarity "" "" = Ok 1%Q.
Proof.
  split; [|split; [|reflexivity]].
  - unfold calculate_jaccard_similarity.
    rewrite (andb_comm (bool_decide (token_set a = ∅))).
    assert (token_set a ∩ token_set b = token_set b ∩ token_set a) as ->
      by apply (comm_L _).
    assert (token_set a ∪ token_set b = token_set b ∪ token_set a) as ->
      by apply (comm_L _).
    reflexivity.
  - unfold calculate_jaccard_similarity.
    destruct (bool_decide_reflect (token_set a = ∅)) as [He|Hne]; simpl.
    + exists 1%Q. split; reflexivity.
    + assert (token_set a ∩ token_set a = token_set a) as ->
        by apply (idemp_L _).
      assert (token_set a ∪ token_set a = token_set a) as ->
        by apply (idemp_L _).
      assert (size (token_set a) <> 0) as Hsz.
      { intros Hsz. by apply Hne, leibniz_equiv, size_empty_iff. }
      destruct (Z.eqb_spec (Z.of_nat (size (token_set a))) 0) as [E|E];
        [lia|]. simpl.
      rewrite int_truediv_ok by done. eexists. split; [reflexivity|].
      apply Qmult_inv_r. unfold Qeq. simpl. lia.
Qed.

(** C6. [evidence_coverage_rate] is computed over all predicted objects: it is
    the fraction of the predicted objects whose [evidence_span] is [in] the
    document text, and 0 when there is no predicted object; the gold
    objects, the threshold and the outcome of the matching play no part in
    it. A span is [in] the text exactly when it occurs in it verbatim, as a
    substring. Each predicted object adds 1 to the numerator if its span is a
    substring of the text and 0 if it is not, matched or not. *)
Theorem C6_coverage_over_all_predicted (self : Scorer) (journal_text : string)
    (gold pred : list SemanticObject) :
  (exists s,
     score_journal self journal_text gold pred = Ok s /\
     evidence_coverage_rate s = grounded_fraction journal_text pred) /\
  grounded_fraction journal_text [] = 0%Q /\
  (forall p, py_in (evidence_span p) journal_text = true
             <-> occurs_in (evidence_span p) journal_text) /\
  (forall l1 p l2,
     count_valid_evidence_spans journal_text (l1 ++ p :: l2)
     = (count_valid_evidence_spans journal_text (l1 ++ l2)
        + (if py_in (evidence_span p) journal_text then 1 else 0))%Z).
Proof.
  split; [|split; [reflexivity|split]].
  - destruct (score_journal_total self journal_text gold pred)
      as (pairs & fps & fns & _ & Hs & _).
    eexists. split; [exact Hs|]. simpl.
    apply coverage_is_grounded_fraction.
  - intros p. apply py_in_spec.
  - intros l1 p l2. apply count_valid_insert.
Qed.

(** C7. Degenerate input never raises: [score_journal] always returns, and
    each zero denominator gives 0: precision is 0 when tp + fp = 0, recall is
    0 when tp + fn = 0, f1 is 0 when precision + recall = 0, polarity and
    bucket accuracy are 0 when tp = 0, coverage is 0 when there is no
    prediction. Scoring empty gold against empty predicted gives
    tp = fp = fn = 0 and precision = recall = f1 = coverage = 0. *)
Theorem C7_zero_denominators_give_zero (self : Scorer) (journal_text : string)
    (gold pred : list SemanticObject) :
  (exists s,
     score_journal self journal_text gold pred = Ok s /\
     ((tp s + fp s = 0)%Z -> precision s = 0%Q) /\
     ((tp s + fn s = 0)%Z -> recall s = 0%Q) /\
     ((precision s + recall s == 0)%Q -> f1 s = 0%Q) /\
     (tp s = 0%Z -> polarity_accuracy s = 0%Q /\ bucket_accuracy s = 0%Q) /\
     (pred = [] -> evidence_coverage_rate s = 0%Q)) /\
  (exists s0,
     score_journal self journal_text [] [] = Ok s0 /\
     tp s0 = 0%Z /\ fp s0 = 0%Z /\ fn s0 = 0%Z /\
     precision s0 = 0%Q /\ recall s0 = 0%Q /\ f1 s0 = 0%Q /\
     polarity_accuracy s0 = 0%Q /\ bucket_accuracy s0 = 0%Q /\
     evidence_coverage_rate s0 = 0%Q).
Proof.
  split.
  - destruct (score_journal_total self journal_text gold pred)
      as (pairs & fps & fns & _ & Hs & _).
    eexists. split; [exact Hs|]. simpl.
    split; [intros H; apply ratio_nonpositive; lia|].
    split; [intros H; apply ratio_nonpositive; lia|].
    split; [apply f1_of_zero|].
    split; [intros H; split; apply ratio_nonpositive; lia|].
    intros ->. reflexivity.
  - eexists. split; [reflexivity|]. simpl. repeat split; reflexivity.
Qed.

Lemma C7_zero_denominators_give_zero_witness :
  exists s,
    score_journal Scorer_default "no pain today" [example_gold] [] = Ok s /\
    precision s = 0%Q /\ polarity_accuracy s = 0%Q /\
    evidence_coverage_rate s = 0%Q.
Proof.
  destruct (C7_zero_denominators_give_zero
              Scorer_default "no pain today" [example_gold] [])
    as [(s & Hs & Hp & _ & _ & Ha & Hc) _].
  exists s. split; [exact Hs|].
  assert (tp s = 0%Z /\ fp s = 0%Z) as [Htp Hfp].
  { vm_compute in Hs. injection Hs as <-. split; reflexivity. }
  split; [apply Hp; by rewrite Htp, Hfp|].
  split; [by apply Ha | by apply Hc].
Defined.

(** C8. Matching is domain-gated: whatever the gold set, the predicted set and
    the threshold, every matched pair returned by the matcher joins a gold
    object and a predicted object of the same domain. *)
Theorem C8_matched_pairs_share_domain (self : Scorer)
    (gold pred : list SemanticObject) :
  exists pairs fps fns,
    _match_objects self gold pred = Ok (pairs, fps, fns) /\
    Forall (fun gp => domain (fst gp) = domain (snd gp)) pairs.
Proof.
  destruct (match_objects_ok self gold pred) as (pairs & Hpairs & Hm).
  do 3 eexists. split; [exact Hm|].
  eapply Forall2_Forall_r; [exact Hpairs|].
  apply Forall_forall. intros m Hin [g p] [Hg Hp]. simpl in *.
  apply committed_is_candidate, elem_of_candidate_pairs in Hin
    as (g' & p' & Hg' & Hp' & Hd & _).
  congruence.
Qed.

(** C9, as amended. In exact arithmetic, reconstructing the weighted sum
    from the per-document ratios is equivalent to the raw-count computation:
    over the scores of any corpus, [overall_evidence_coverage_rate],
    computed as [Σ(coverage_i · (tp_i + fp_i)) / Σ(tp_i + fp_i)] with 0 for a
    zero denominator, equals [Σ valid_evidence_spans_i / Σ |predicted_i|],
    because for every document tp_i + fp_i is the number of predicted
    objects and coverage_i · (tp_i + fp_i) is the raw count of valid spans.
    The equality is one of rationals; the doubles of the code round each
    step, and the lemma that follows shows the two computations apart. *)
Theorem C9_coverage_equals_raw_counts (scorer : Scorer)
    (journals : list Journal) :
  exists scores o,
    score_all_journals scorer journals = Ok scores /\
    overall_scores scores = Ok o /\
    Forall2 retains_counts journals scores /\
    (overall_evidence_coverage_rate o == raw_count_coverage journals)%Q.
Proof.
  destruct (score_all_journals_ok scorer journals) as (scores & Hs & Hret).
  exists scores, (overall_scores_of scores).
  split; [exact Hs|]. split; [apply overall_scores_ok|]. split; [exact Hret|].
  destruct (retained_totals journals scores Hret) as [Hn Hv].
  simpl. unfold weighted_ratio, raw_count_coverage.
  rewrite sum_int_sigma, Hn.
  assert (0 <= sigma_int (fun j => len (predicted_of j)) journals)%Z as Hpos.
  { apply sigma_int_nonneg, Forall_forall. intros j _. unfold len. lia. }
  destruct (Z.ltb_spec 0 (sigma_int (fun j => len (predicted_of j)) journals)),
           (Z.eqb_spec (sigma_int (fun j => len (predicted_of j)) journals) 0);
    try lia; [|reflexivity].
  by rewrite sum_float_sigma, Hv.
Qed.

(** C9, the claim as stated fails on the doubles of the code. On
    [example_corpus] the first journal has coverage 1/49 as a double, and
    that double times 49 is 0.9999999999999999, not the count 1; the
    overall rate is 0.019999999999999997, and the raw-count ratio 1/50 is
    the next double, 0.02. *)
Lemma C9_reconstruction_differs_in_doubles :
  exists scores s1 o raw,
    Binary64.score_all_journals Binary64.Scorer_default example_corpus
    = Ok scores /\
    head scores = Some s1 /\
    Binary64.float_int_mul (Binary64.evidence_coverage_rate s1)
                           (Binary64.tp s1 + Binary64.fp s1)
    = Ok (SpecFloat.S754_finite false 9007199254740991 (-53)) /\
    Binary64.float_of_int
      (count_valid_evidence_spans "had tea"
         (example_object "tea" :: replicate 48 (example_object "rice")))
    = Ok Binary64.one /\
    Binary64.overall_scores scores = Ok o /\
    raw_count_coverage_double example_corpus = Ok raw /\
    Binary64.overall_evidence_coverage_rate o
    = SpecFloat.S754_finite false 5764607523034234 (-58) /\
    raw = SpecFloat.S754_finite false 5764607523034235 (-58) /\
    Binary64.overall_evidence_coverage_rate o <> raw.
Proof.
  eexists _, _, _, _.
  split; [vm_compute; reflexivity|].
  split; [reflexivity|].
  split; [vm_compute; reflexivity|].
  split; [vm_compute; reflexivity|].
  split; [vm_compute; reflexivity|].
  split; [vm_compute; reflexivity|].
  split; [reflexivity|]. split; [reflexivity|].
  discriminate.
Qed.

(** C10. An empty [evidence_span] is always counted as covered, in every
    document text: it adds 1 to the numerator of [evidence_coverage_rate],
    the empty string being a substring of every text; so a non-empty
    predicted set made of empty-span objects only has rate 1. *)
Theorem C10_empty_span_is_covered (self : Scorer) (journal_text : string)
    (gold pred : list SemanticObject) :
  (forall l1 p l2,
     evidence_span p = EmptyString ->
     count_valid_evidence_spans journal_text (l1 ++ p :: l2)
     = (count_valid_evidence_spans journal_text (l1 ++ l2) + 1)%Z) /\
  (pred <> [] ->
   Forall (fun p => evidence_span p = EmptyString) pred ->
   exists s,
     score_journal self journal_text gold pred = Ok s /\
     (evidence_coverage_rate s == 1)%Q).
Proof.
  split.
  - intros l1 p l2 Hp. rewrite count_valid_insert. unfold contribution.
    by rewrite Hp, py_in_empty.
  - intros Hne Hall.
    destruct (score_journal_total self journal_text gold pred)
      as (pairs & fps & fns & _ & Hs & _).
    eexists. split; [exact Hs|]. simpl.
    rewrite coverage_is_grounded_fraction. unfold grounded_fraction.
    destruct pred as [|p pred]; [done|].
    assert (grounded journal_text (p :: pred) = p :: pred) as ->.
    { unfold grounded. clear Hs Hne.
      induction Hall as [|x l Hx Hl IH]; [done|].
      rewrite filter_cons, IH, Hx, py_in_empty.
      by rewrite decide_True. }
    apply Qmult_inv_r. unfold Qeq, len. simpl. lia.
Qed.

Lemma C10_empty_span_is_covered_witness :
  let p := {| domain := "symptom"; evidence_span := ""; polarity := "absent";
              intensity_bucket := "unknown"; arousal_bucket := "unknown";
              time_bucket := "today" |} in
  count_valid_evidence_spans "no pain today" ([example_pred] ++ p :: [])
  = (count_valid_evidence_spans "no pain today" ([example_pred] ++ []) + 1)%Z /\
  exists s,
    score_journal Scorer_default "no pain today" [] [p] = Ok s /\
    (evidence_coverage_rate s == 1)%Q.
Proof.
  intros p.
  destruct (C10_empty_span_is_covered Scorer_default "no pain today" [] [p])
    as [Hadd Hrate].
  split.
  - apply Hadd. reflexivity.
  - apply Hrate.
    + discriminate.
    + repeat constructor.
Defined.

(** * Further properties *)

(** ** The similarity measure *)

(** A count divided by a larger positive count lies between 0 and 1. *)
Lemma unit_fraction (a b : Z) :
  (0 <= a <= b)%Z -> (0 < b)%Z ->
  (0 <= inject_Z a / inject_Z b <= 1)%Q.
Proof.
  intros [Ha Hab] Hb.
  assert (0 < inject_Z b)%Q as Hb' by (unfold Qlt; simpl; lia).
  split.
  - apply Qle_shift_div_l; [done|]. rewrite Qmult_0_l.
    unfold Qle. simpl. lia.
  - apply Qle_shift_div_r; [done|]. rewrite Qmult_1_l.
    unfold Qle. simpl. lia.
Qed.

(** The two ways [calculate_jaccard_similarity] returns. *)
Lemma similarity_cases (a b : string) :
  (token_set a = ∅ /\ token_set b = ∅ /\ similarity a b = 1%Q) \/
  (~ (token_set a = ∅ /\ token_set b = ∅) /\
   size (token_set a ∪ token_set b) <> 0 /\
   similarity a b
   = (inject_Z (Z.of_nat (size (token_set a ∩ token_set b)))
      / inject_Z (Z.of_nat (size (token_set a ∪ token_set b))))%Q).
Proof.
  unfold similarity, calculate_jaccard_similarity.
  destruct (bool_decide_reflect (token_set a = ∅)) as [Ha|Ha];
    destruct (bool_decide_reflect (token_set b = ∅)) as [Hb|Hb]; simpl;
    [by left| right..].
  all: assert (size (token_set a ∪ token_set b) <> 0) as Hsz
    by (intros Hsz%size_empty_inv%leibniz_equiv;
        apply empty_union_L in Hsz as [? ?]; done).
  all: destruct (Z.eqb_spec (Z.of_nat (size (token_set a ∪ token_set b))) 0)
    as [E|E]; [lia|]; simpl.
  all: rewrite int_truediv_ok by done.
  all: split; [tauto | by split].
Qed.

Lemma size_intersection_le_union (X Y : gset string) :
  size (X ∩ Y) <= size (X ∪ Y).
Proof.
  apply subseteq_size. intros x Hx.
  apply elem_of_intersection in Hx as [Hx _]. apply elem_of_union. by left.
Qed.

Lemma similarity_range (a b : string) : (0 <= similarity a b <= 1)%Q.
Proof.
  destruct (similarity_cases a b) as [(_ & _ & ->) | (_ & Hsz & ->)].
  - split; discriminate.
  - apply unit_fraction; [|lia]. split; [lia|].
    apply inj_le, size_intersection_le_union.
Qed.

(** X1. The similarity is always a number between 0 and 1, whatever the two
    texts. *)
Theorem X1_similarity_between_0_and_1 (a b : string) :
  exists q,
    calculate_jaccard_similarity a b = Ok q /\ (0 <= q <= 1)%Q.
Proof.
  exists (similarity a b). split.
  - apply calculate_jaccard_similarity_ok.
  - apply similarity_range.
Qed.

Lemma fraction_eq_1 (a b : Z) :
  (0 < b)%Z -> (inject_Z a / inject_Z b == 1)%Q <-> a = b.
Proof.
  intros Hb.
  assert (~ inject_Z b == 0)%Q as Hb' by (unfold Qeq; simpl; lia).
  split.
  - intros H.
    assert (inject_Z a == inject_Z b)%Q as E.
    { assert (inject_Z a == inject_Z a / inject_Z b * inject_Z b)%Q as ->
        by (field; done).
      rewrite H. ring. }
    unfold Qeq in E. simpl in E. lia.
  - intros ->. by apply Qmult_inv_r.
Qed.

Lemma fraction_eq_0 (a b : Z) :
  (0 < b)%Z -> (inject_Z a / inject_Z b == 0)%Q <-> a = 0%Z.
Proof.
  intros Hb.
  assert (~ inject_Z b == 0)%Q as Hb' by (unfold Qeq; simpl; lia).
  split.
  - intros H.
    assert (inject_Z a == 0)%Q as E.
    { assert (inject_Z a == inject_Z a / inject_Z b * inject_Z b)%Q as ->
        by (field; done).
      rewrite H. ring. }
    unfold Qeq in E. simpl in E. lia.
  - intros ->. unfold Qdiv. apply Qmult_0_l.
Qed.

(** X2. The similarity is 1 exactly when the two texts have the same set of
    case-folded tokens, and 0 exactly when they share no token and are not
    both without tokens. *)
Theorem X2_similarity_one_and_zero (a b : string) :
  exists q,
    calculate_jaccard_similarity a b = Ok q /\
    ((q == 1)%Q <-> token_set a = token_set b) /\
    ((q == 0)%Q <->
     token_set a ∩ token_set b = ∅ /\
     ~ (token_set a = ∅ /\ token_set b = ∅)).
Proof.
  exists (similarity a b). split; [apply calculate_jaccard_similarity_ok|].
  destruct (similarity_cases a b)
    as [(Ha & Hb & ->) | (Hne & Hsz & ->)].
  - split.
    + split; [intros _; congruence | reflexivity].
    + split; [discriminate | tauto].
  - rewrite fraction_eq_1, fraction_eq_0 by lia. split.
    + split.
      * intros H%Nat2Z.inj.
        assert (token_set a ∩ token_set b = token_set a ∪ token_set b) as E.
        { apply set_subseteq_size_eq; [|lia]. intros x Hx.
          apply elem_of_intersection in Hx as [Hx _].
          apply elem_of_union. by left. }
        apply set_eq. intros x. split; intros Hx.
        -- assert (x ∈ token_set a ∩ token_set b) as Hx'
             by (rewrite E; apply elem_of_union; by left).
           by apply elem_of_intersection in Hx' as [_ ?].
        -- assert (x ∈ token_set a ∩ token_set b) as Hx'
             by (rewrite E; apply elem_of_union; by right).
           by apply elem_of_intersection in Hx' as [? _].
      * intros ->. f_equal. f_equal.
        assert (token_set b ∩ token_set b = token_set b) as ->
          by apply (idemp_L _).
        assert (token_set b ∪ token_set b = token_set b) as ->
          by apply (idemp_L _).
        done.
    + split.
      * intros H. split; [|done].
        apply leibniz_equiv, size_empty_inv. lia.
      * intros [-> _]. by rewrite size_empty.
Qed.

Lemma lower_char_idempotent (c : ascii) :
  lower_char (lower_char c) = lower_char c.
Proof.
  destruct c as [b0 b1 b2 b3 b4 b5 b6 b7].
  destruct b0, b1, b2, b3, b4, b5, b6, b7; reflexivity.
Qed.

Lemma lower_idempotent (s : string) : lower (lower s) = lower s.
Proof.
  induction s as [|c s IH]; simpl; [done|].
  by rewrite lower_char_idempotent, IH.
Qed.

(** X3. The similarity ignores case: lower-casing either text beforehand
    does not change it, and a text and its lower-cased form have
    similarity 1. *)
Theorem X3_similarity_ignores_case (a b : string) :
  calculate_jaccard_similarity (lower a) b = calculate_jaccard_similarity a b /\
  calculate_jaccard_similarity a (lower b) = calculate_jaccard_similarity a b /\
  exists q, calculate_jaccard_similarity a (lower a) = Ok q /\ (q == 1)%Q.
Proof.
  assert (forall s, token_set (lower s) = token_set s) as Hts.
  { intros s. unfold token_set. by rewrite lower_idempotent. }
  unfold calculate_jaccard_similarity. rewrite !Hts.
  split; [done|]. split; [done|].
  fold (calculate_jaccard_similarity a a).
  rewrite calculate_jaccard_similarity_ok. eexists. split; [done|].
  destruct (similarity_cases a a) as [(_ & _ & ->) | (_ & Hsz & ->)]; [done|].
  apply fraction_eq_1; [lia|].
  assert (token_set a ∩ token_set a = token_set a) as -> by apply (idemp_L _).
  assert (token_set a ∪ token_set a = token_set a) as -> by apply (idemp_L _).
  done.
Qed.

(** ** The matcher *)

Lemma snd_enumerate_from {A : Type} (l : list A) (n : nat) :
  snd <$> enumerate_from n l = l.
Proof. revert n; induction l as [|x l IH]; intros n; simpl; by rewrite ?IH. Qed.

Lemma not_matched_sublist (l : list SemanticObject) (s : gset nat) :
  sublist (not_matched l s) l.
Proof.
  unfold not_matched, enumerate.
  rewrite <- (snd_enumerate_from l 0) at 2.
  apply fmap_sublist, sublist_filter.
Qed.

Lemma elem_of_not_matched (l : list SemanticObject) (s : gset nat)
    (x : SemanticObject) :
  x ∈ not_matched l s <-> exists i, l !! i = Some x /\ i ∉ s.
Proof.
  unfold not_matched. rewrite list_elem_of_fmap. split.
  - intros ([i y] & -> & Hin). apply list_elem_of_filter in Hin as [Hi Hin].
    apply elem_of_enumerate in Hin. by exists i.
  - intros (i & Hi & Hs). exists (i, x). split; [done|].
    apply list_elem_of_filter. split; [done|]. by apply elem_of_enumerate.
Qed.

Lemma not_matched_nil_iff (l : list SemanticObject) (s : gset nat) :
  not_matched l s = [] <-> forall i, i < length l -> i ∈ s.
Proof.
  split.
  - intros Hnil i Hi. destruct (decide (i ∈ s)) as [|Hn]; [done|].
    destruct (lookup_lt_is_Some_2 l i Hi) as [x Hx].
    assert (x ∈ not_matched l s) as Hin
      by (apply elem_of_not_matched; by exists i).
    rewrite Hnil in Hin. by apply elem_of_nil in Hin.
  - intros Hall. destruct (not_matched l s) as [|x l'] eqn:E; [done|].
    assert (x ∈ not_matched l s) as Hin by (rewrite E; by left).
    apply elem_of_not_matched in Hin as (i & Hi & Hs).
    destruct Hs. by eapply Hall, lookup_lt_Some.
Qed.

Lemma not_matched_empty (l : list SemanticObject) : not_matched l ∅ = l.
Proof.
  unfold not_matched, enumerate.
  rewrite <- (snd_enumerate_from l 0) at 2. f_equal.
  generalize 0. induction l as [|x l IH]; intros n; simpl; [done|].
  rewrite filter_cons, IH. simpl.
  by rewrite decide_True by apply not_elem_of_empty.
Qed.

Lemma consumed_mono (m : PotentialMatch) (c ext : list PotentialMatch) :
  consumed m c -> consumed m (c ++ ext).
Proof.
  unfold consumed. rewrite !fmap_app, !elem_of_app. tauto.
Qed.

Lemma consumed_by_itself (m : PotentialMatch) (c ext : list PotentialMatch) :
  consumed m (c ++ m :: ext).
Proof.
  left. rewrite fmap_app. apply elem_of_app. right. simpl. by left.
Qed.

(** After the walk every candidate of the list has one of its indices
    consumed. *)
Lemma greedy_walk_consumes (l c : list PotentialMatch) (m : PotentialMatch) :
  m ∈ l -> consumed m (greedy_walk l c).
Proof.
  revert c; induction l as [|x l IH]; intros c Hm; [by apply elem_of_nil in Hm|].
  simpl. apply elem_of_cons in Hm as [->|Hm]; [|by apply IH].
  destruct (greedy_walk_extends l (commit c x)) as [ext ->].
  unfold commit. destruct (bool_decide_reflect (consumed x c)) as [Hc|Hc].
  - by apply consumed_mono.
  - rewrite <- app_assoc. apply consumed_by_itself.
Qed.

Lemma committed_pairs_of (self : Scorer) (gold pred : list SemanticObject) :
  exists pairs fps fns,
    _match_objects self gold pred = Ok (pairs, fps, fns) /\
    Forall2 (pair_of gold pred) (committed_candidates self gold pred) pairs /\
    fps = not_matched pred
            (list_to_set (pm_pred <$> committed_candidates self gold pred)) /\
    fns = not_matched gold
            (list_to_set (pm_gold <$> committed_candidates self gold pred)).
Proof.
  destruct (match_objects_ok self gold pred) as (pairs & Hpairs & Hm).
  by do 3 eexists.
Qed.

Lemma committed_NoDup (self : Scorer) (gold pred : list SemanticObject) :
  NoDup (pm_gold <$> committed_candidates self gold pred) /\
  NoDup (pm_pred <$> committed_candidates self gold pred).
Proof.
  unfold committed_candidates, greedy_commit.
  apply greedy_walk_NoDup. split; constructor.
Qed.

(** X4. The matching is one to one: the matched pairs sit at positions of the
    gold list and of the predicted list, and no position of either list is
    used by two pairs. *)
Theorem X4_matching_is_one_to_one (self : Scorer)
    (gold pred : list SemanticObject) :
  exists pairs fps fns (positions : list (nat * nat)),
    _match_objects self gold pred = Ok (pairs, fps, fns) /\
    Forall2 (fun ij gp => gold !! fst ij = Some (fst gp) /\
                          pred !! snd ij = Some (snd gp))
            positions pairs /\
    NoDup (fst <$> positions) /\
    NoDup (snd <$> positions).
Proof.
  destruct (committed_pairs_of self gold pred)
    as (pairs & fps & fns & Hm & Hpairs & _).
  destruct (committed_NoDup self gold pred) as [Hg Hp].
  exists pairs, fps, fns,
    ((fun m => (pm_gold m, pm_pred m)) <$> committed_candidates self gold pred).
  split; [done|]. split.
  - apply Forall2_fmap_l. eapply Forall2_impl; [exact Hpairs|]. by intros m gp.
  - rewrite <- !list_fmap_compose. by split.
Qed.

(** X5. The greedy matching is maximal: no object left as a false negative
    and no object left as a false positive could still be matched, that is,
    whenever they have the same domain their similarity is below the
    threshold. *)
Theorem X5_no_matchable_pair_left (self : Scorer)
    (gold pred : list SemanticObject) :
  exists pairs fps fns,
    _match_objects self gold pred = Ok (pairs, fps, fns) /\
    Forall (fun g =>
      Forall (fun p =>
        domain g = domain p ->
        (similarity (evidence_span g) (evidence_span p)
         < jaccard_threshold self)%Q) fps) fns.
Proof.
  destruct (committed_pairs_of self gold pred)
    as (pairs & fps & fns & Hm & _ & -> & ->).
  do 3 eexists. split; [exact Hm|].
  apply Forall_forall. intros g (i & Hi & Hgi)%elem_of_not_matched.
  apply Forall_forall. intros p (j & Hj & Hpj)%elem_of_not_matched.
  intros Hd. apply Qnot_le_lt. intros Hle.
  set (m := (similarity (evidence_span g) (evidence_span p), j, i)
            : PotentialMatch).
  assert (m ∈ sorted_candidates self gold pred) as Hin.
  { apply elem_of_sorted_candidates, elem_of_candidate_pairs.
    exists g, p. by repeat split. }
  apply (greedy_walk_consumes _ []) in Hin.
  fold (greedy_commit (sorted_candidates self gold pred)) in Hin.
  fold (committed_candidates self gold pred) in Hin.
  destruct Hin as [Hin|Hin]; [apply Hgi | apply Hpj];
    by apply elem_of_list_to_set.
Qed.

(** X6. Every matched pair joins an object of the gold list with an object of
    the predicted list, and their similarity reaches the threshold. *)
Theorem X6_matched_pairs_reach_threshold (self : Scorer)
    (gold pred : list SemanticObject) :
  exists pairs fps fns,
    _match_objects self gold pred = Ok (pairs, fps, fns) /\
    Forall (fun gp =>
      fst gp ∈ gold /\ snd gp ∈ pred /\
      (jaccard_threshold self
       <= similarity (evidence_span (fst gp)) (evidence_span (snd gp)))%Q)
      pairs.
Proof.
  destruct (committed_pairs_of self gold pred)
    as (pairs & fps & fns & Hm & Hpairs & _).
  do 3 eexists. split; [exact Hm|].
  eapply Forall2_Forall_r; [exact Hpairs|].
  apply Forall_forall. intros m Hin [g p] [Hg Hp]. simpl in *.
  apply committed_is_candidate, elem_of_candidate_pairs in Hin
    as (g' & p' & Hg' & Hp' & _ & Hs & Hle).
  assert (g' = g) as -> by congruence. assert (p' = p) as -> by congruence.
  split; [by eapply list_elem_of_lookup_2|].
  split; [by eapply list_elem_of_lookup_2|]. by rewrite <- Hs.
Qed.

(** X7. The false positives are predicted objects and the false negatives
    are gold objects, each kept in the order of its input list. *)
Theorem X7_unmatched_are_sublists (self : Scorer)
    (gold pred : list SemanticObject) :
  exists pairs fps fns,
    _match_objects self gold pred = Ok (pairs, fps, fns) /\
    sublist fps pred /\ sublist fns gold.
Proof.
  destruct (committed_pairs_of self gold pred)
    as (pairs & fps & fns & Hm & _ & -> & ->).
  do 3 eexists. split; [exact Hm|]. split; apply not_matched_sublist.
Qed.

Lemma flat_map_nil {A B : Type} (f : A -> list B) (l : list A) :
  (forall x, f x = []) -> flat_map f l = [].
Proof. intros Hf. induction l as [|x l IH]; simpl; [done|]. by rewrite Hf, IH. Qed.

(** Without candidates nothing is matched. *)
Lemma match_objects_no_candidate (self : Scorer)
    (gold pred : list SemanticObject) :
  candidate_pairs self gold pred = [] ->
  _match_objects self gold pred = Ok ([], pred, gold).
Proof.
  intros Hnil.
  destruct (committed_pairs_of self gold pred)
    as (pairs & fps & fns & Hm & Hpairs & -> & ->).
  rewrite Hm. unfold committed_candidates, sorted_candidates in *.
  rewrite Hnil in *. simpl in *. rewrite !not_matched_empty.
  by apply Forall2_nil_inv_l in Hpairs as ->.
Qed.

(** X8. Empty inputs are no error: with no gold object every predicted object
    is a false positive, and with no predicted object every gold object is a
    false negative. *)
Theorem X8_empty_gold_or_empty_predicted (self : Scorer)
    (gold pred : list SemanticObject) :
  _match_objects self [] pred = Ok ([], pred, []) /\
  _match_objects self gold [] = Ok ([], [], gold).
Proof.
  split; apply match_objects_no_candidate; [reflexivity|].
  unfold candidate_pairs. by apply flat_map_nil.
Qed.

(** X9. A threshold above 1 can never be reached: nothing is matched, every
    predicted object is a false positive and every gold object a false
    negative. *)
Theorem X9_threshold_above_1_matches_nothing (self : Scorer)
    (gold pred : list SemanticObject) :
  (1 < jaccard_threshold self)%Q ->
  _match_objects self gold pred = Ok ([], pred, gold).
Proof.
  intros Hthr. apply match_objects_no_candidate.
  unfold candidate_pairs. apply flat_map_nil. intros [i g].
  apply flat_map_nil. intros [j p]. simpl. unfold candidate_of.
  assert (Qle_bool (jaccard_threshold self)
            (similarity (evidence_span g) (evidence_span p)) = false) as ->.
  { apply Qle_bool_false.
    eapply Qle_lt_trans; [apply similarity_range | exact Hthr]. }
  by rewrite andb_false_r.
Qed.

Lemma X9_threshold_above_1_matches_nothing_witness :
  (1 < 2)%Q /\
  _match_objects {| jaccard_threshold := 2 |} [example_pred] [example_pred]
  = Ok ([], [example_pred], [example_pred]).
Proof.
  assert (1 < 2)%Q as H by reflexivity.
  split; [exact H|].
  apply (X9_threshold_above_1_matches_nothing
           {| jaccard_threshold := 2 |} [example_pred] [example_pred]).
  exact H.
Defined.

Lemma NoDup_fmap_elem_inj {A B : Type} (f : A -> B) (l : list A) (x y : A) :
  NoDup (f <$> l) -> x ∈ l -> y ∈ l -> f x = f y -> x = y.
Proof.
  induction l as [|a l IH]; intros Hnd Hx Hy Hf; [by apply elem_of_nil in Hx|].
  simpl in Hnd. apply NoDup_cons in Hnd as [Ha Hnd].
  apply elem_of_cons in Hx as [->|Hx], Hy as [->|Hy]; [done| | |by apply IH].
  - destruct Ha. rewrite Hf. apply list_elem_of_fmap. by exists y.
  - destruct Ha. rewrite <- Hf. apply list_elem_of_fmap. by exists x.
Qed.

Lemma similarity_refl (a : string) : (similarity a a == 1)%Q.
Proof.
  destruct (similarity_cases a a) as [(_ & _ & ->) | (_ & Hsz & ->)]; [done|].
  apply fraction_eq_1; [lia|].
  assert (token_set a ∩ token_set a = token_set a) as -> by apply (idemp_L _).
  assert (token_set a ∪ token_set a = token_set a) as -> by apply (idemp_L _).
  done.
Qed.

(** Matching a list against itself commits every diagonal candidate. *)
Lemma diagonal_committed (self : Scorer) (gold : list SemanticObject) :
  (jaccard_threshold self <= 1)%Q ->
  forall i g,
    gold !! i = Some g ->
    (similarity (evidence_span g) (evidence_span g), i, i)
    ∈ committed_candidates self gold gold.
Proof.
  intros Hthr i. induction i as [i IH] using lt_wf_ind. intros g Hg.
  set (d := (similarity (evidence_span g) (evidence_span g), i, i)
            : PotentialMatch).
  assert (pm_score d == 1)%Q as Hd1 by apply similarity_refl.
  assert (d ∈ sorted_candidates self gold gold) as Hd.
  { apply elem_of_sorted_candidates, elem_of_candidate_pairs.
    exists g, g. repeat split; try done. by rewrite Hd1. }
  assert (NoDup (sorted_candidates self gold gold)) as Hnd.
  { unfold sorted_candidates. rewrite sort_reverse_perm.
    apply candidate_pairs_NoDup. }
  destruct (sorted_candidates_stable self gold gold) as (_ & Hdesc & Hstable).
  apply list_elem_of_split in Hd as (l1 & l2 & Hsplit).
  unfold committed_candidates. rewrite Hsplit.
  apply greedy_commit_iff; [by rewrite <- Hsplit|]. intros Hcons.
  assert (exists m, m ∈ greedy_commit l1 /\ (pm_gold m = i \/ pm_pred m = i))
    as (m & Hmc & Hidx).
  { destruct Hcons as [H|H];
      apply list_elem_of_fmap in H as (m & Hm & Hin); exists m; auto. }
  assert (m ∈ l1) as Hm1 by by apply greedy_commit_elem.
  assert (m ∈ committed_candidates self gold gold) as Hmcom.
  { unfold committed_candidates. rewrite Hsplit. unfold greedy_commit.
    rewrite greedy_walk_app.
    destruct (greedy_walk_extends (d :: l2) (greedy_walk l1 [])) as [ext ->].
    apply elem_of_app. by left. }
  pose proof (committed_is_candidate _ _ _ _ Hmcom) as Hmcand.
  apply elem_of_candidate_pairs in Hmcand
    as (g1 & p1 & Hg1 & Hp1 & _ & Hs1 & _).
  assert (pm_score m == pm_score d)%Q as Htie.
  { apply Qle_antisym.
    - rewrite Hd1, Hs1. apply similarity_range.
    - unfold descending in Hdesc. rewrite Hsplit in Hdesc.
      apply (StronglySorted_app_1_elem_of _ _ _ m d) in Hdesc;
        [done | done | by left]. }
  apply list_elem_of_split in Hm1 as (la & lb & ->).
  rewrite <- app_assoc in Hsplit. simpl in Hsplit.
  pose proof (stable_ties_in_order pm_score generation_order _ _ _ _ _ _ _
                (candidate_pairs_generation_order self gold gold)
                Hstable Hsplit Htie) as Hgen.
  destruct (committed_NoDup self gold gold) as [HndG HndP].
  destruct Hgen as [Hlt | [Heq Hlt]]; unfold pm_gold, pm_pred in Hlt; simpl in Hlt.
  - pose proof (IH _ Hlt g1 Hg1) as Hdk.
    assert (m = (similarity (evidence_span g1) (evidence_span g1),
                 pm_gold m, pm_gold m)) as Em.
    { by apply (NoDup_fmap_elem_inj pm_gold
                  (committed_candidates self gold gold)). }
    rewrite Em in Hidx. unfold pm_gold, pm_pred in Hidx. simpl in Hidx.
    fold (pm_gold m) in Hidx. unfold pm_gold in Hidx. lia.
  - pose proof (IH _ Hlt p1 Hp1) as Hdj.
    assert (m = (similarity (evidence_span p1) (evidence_span p1),
                 pm_pred m, pm_pred m)) as Em.
    { by apply (NoDup_fmap_elem_inj pm_pred
                  (committed_candidates self gold gold)). }
    rewrite Em in Heq. unfold pm_gold, pm_pred in Heq. simpl in Heq.
    fold (pm_pred m) in Heq. unfold pm_pred in Heq. lia.
Qed.

Lemma self_match (self : Scorer) (gold : list SemanticObject) :
  (jaccard_threshold self <= 1)%Q ->
  exists pairs,
    _match_objects self gold gold = Ok (pairs, [], []) /\
    length pairs = length gold /\
    Forall (fun gp => fst gp = snd gp) pairs.
Proof.
  intros Hthr.
  destruct (committed_pairs_of self gold gold)
    as (pairs & fps & fns & Hm & Hpairs & Hfps & Hfns).
  pose proof (diagonal_committed self gold Hthr) as Hdiag.
  destruct (committed_NoDup self gold gold) as [HndG HndP].
  assert (fns = []) as Efns.
  { rewrite Hfns. apply not_matched_nil_iff. intros i Hi.
    destruct (lookup_lt_is_Some_2 gold i Hi) as [g Hg].
    apply elem_of_list_to_set, list_elem_of_fmap.
    eexists. split; [|by apply (Hdiag i g)]. done. }
  assert (fps = []) as Efps.
  { rewrite Hfps. apply not_matched_nil_iff. intros i Hi.
    destruct (lookup_lt_is_Some_2 gold i Hi) as [g Hg].
    apply elem_of_list_to_set, list_elem_of_fmap.
    eexists. split; [|by apply (Hdiag i g)]. done. }
  exists pairs. split; [by rewrite Hm, Efps, Efns|]. split.
  - destruct (committed_in_range self gold gold) as [Hrg _].
    pose proof (length_not_matched gold _ Hrg) as Hlen.
    rewrite <- Hfns, Efns in Hlen. simpl in Hlen.
    destruct (size_committed self gold gold) as [Hsz _].
    apply Forall2_length in Hpairs. lia.
  - eapply Forall2_Forall_r; [exact Hpairs|].
    apply Forall_forall. intros m Hin [g p] [Hg Hp]. simpl in *.
    pose proof (Hdiag _ _ Hg) as Hd.
    assert (m = (similarity (evidence_span g) (evidence_span g),
                 pm_gold m, pm_gold m)) as Em.
    { by apply (NoDup_fmap_elem_inj pm_gold
                  (committed_candidates self gold gold)). }
    rewrite Em in Hp. unfold pm_pred in Hp. simpl in Hp. congruence.
Qed.

Lemma count_correct_polarity_equal
    (pairs : list (SemanticObject * SemanticObject)) :
  Forall (fun gp => fst gp = snd gp) pairs ->
  count_correct_polarity pairs = len pairs.
Proof.
  unfold count_correct_polarity, len. intros Hall.
  assert (forall acc,
            foldl (fun c '(gold_obj, pred_obj) =>
                     if String.eqb (polarity gold_obj) (polarity pred_obj)
                     then (c + 1)%Z else c) acc pairs
            = (acc + Z.of_nat (length pairs))%Z) as H.
  { induction Hall as [|[g p] l Hgp Hl IH]; intros acc; simpl; [lia|].
    simpl in Hgp. subst p. rewrite String.eqb_refl, IH. lia. }
  by rewrite H.
Qed.

Lemma count_correct_bucket_equal
    (pairs : list (SemanticObject * SemanticObject)) :
  Forall (fun gp => fst gp = snd gp) pairs ->
  count_correct_bucket pairs = len pairs.
Proof.
  unfold count_correct_bucket, len. intros Hall.
  assert (forall acc,
            foldl (fun c '(gold_obj, pred_obj) =>
                     if String.eqb (domain gold_obj) "emotion" then
                       if String.eqb (arousal_bucket gold_obj)
                                     (arousal_bucket pred_obj)
                       then (c + 1)%Z else c
                     else
                       if String.eqb (intensity_bucket gold_obj)
                                     (intensity_bucket pred_obj)
                       then (c + 1)%Z else c) acc pairs
            = (acc + Z.of_nat (length pairs))%Z) as H.
  { induction Hall as [|[g p] l Hgp Hl IH]; intros acc; simpl; [lia|].
    simpl in Hgp. subst p. rewrite !String.eqb_refl, IH.
    destruct (String.eqb (domain g) "emotion"); lia. }
  by rewrite H.
Qed.

Lemma ratio_self (n : Z) : (0 < n)%Z -> (ratio n n == 1)%Q.
Proof.
  intros Hn. unfold ratio. destruct (Z.ltb_spec 0 n); [|lia].
  apply Qmult_inv_r. unfold Qeq. simpl. lia.
Qed.

Lemma f1_of_ones (p r : Q) : (p == 1)%Q -> (r == 1)%Q -> (f1_of p r == 1)%Q.
Proof.
  intros Hp Hr. unfold f1_of. destruct (Qlt_bool 0 (p + r)) eqn:E.
  - rewrite Hp, Hr. reflexivity.
  - apply Qlt_bool_false in E. rewrite Hp, Hr in E.
    unfold Qle in E. simpl in E. lia.
Qed.

(** X10. Scoring a list of objects against itself is a perfect score, for
    every threshold up to 1: every object is matched with an equal object,
    tp is the number of objects, fp and fn are 0, and for a non-empty list
    precision, recall, f1, polarity accuracy and bucket accuracy are 1. *)
Theorem X10_identical_inputs_score_perfectly (self : Scorer)
    (journal_text : string) (gold : list SemanticObject) :
  (jaccard_threshold self <= 1)%Q ->
  exists pairs s,
    _match_objects self gold gold = Ok (pairs, [], []) /\
    Forall (fun gp => fst gp = snd gp) pairs /\
    score_journal self journal_text gold gold = Ok s /\
    tp s = len gold /\ fp s = 0%Z /\ fn s = 0%Z /\
    (gold <> [] ->
     (precision s == 1)%Q /\ (recall s == 1)%Q /\ (f1 s == 1)%Q /\
     (polarity_accuracy s == 1)%Q /\ (bucket_accuracy s == 1)%Q).
Proof.
  intros Hthr. destruct (self_match self gold Hthr) as (pairs & Hm & Hlen & Heq).
  exists pairs, (journal_score_of journal_text gold pairs [] []).
  split; [done|]. split; [done|].
  split; [by apply score_journal_ok|]. simpl.
  assert (len pairs = len gold) as Elen by (unfold len; lia).
  split; [done|]. split; [done|]. split; [done|]. intros Hne.
  assert (0 < len pairs)%Z as Hpos.
  { rewrite Elen. unfold len. destruct gold; [done | simpl; lia]. }
  change (len (@nil SemanticObject)) with 0%Z. rewrite Z.add_0_r.
  rewrite count_correct_polarity_equal, count_correct_bucket_equal by done.
  pose proof (ratio_self _ Hpos) as H1.
  split; [done|]. split; [done|]. split; [by apply f1_of_ones|]. by split.
Qed.

Lemma X10_identical_inputs_score_perfectly_witness :
  exists s,
    score_journal Scorer_default "no pain today"
                  [example_gold; example_pred] [example_gold; example_pred]
    = Ok s /\
    tp s = 2%Z /\ (f1 s == 1)%Q.
Proof.
  destruct (X10_identical_inputs_score_perfectly Scorer_default
              "no pain today" [example_gold; example_pred])
    as (pairs & s & _ & _ & Hs & Htp & _ & _ & Hone).
  { unfold Qle. simpl. lia. }
  exists s. split; [exact Hs|]. split; [exact Htp|].
  by apply Hone.
Defined.

(** ** The document scorer *)

Lemma ratio_range (a b : Z) : (0 <= a <= b)%Z -> (0 <= ratio a b <= 1)%Q.
Proof.
  intros Hab. unfold ratio. destruct (Z.ltb_spec 0 b).
  - by apply unit_fraction.
  - split; discriminate.
Qed.

Lemma f1_of_range (p r : Q) :
  (0 <= p <= 1)%Q -> (0 <= r <= 1)%Q -> (0 <= f1_of p r <= 1)%Q.
Proof.
  intros [Hp0 Hp1] [Hr0 Hr1]. unfold f1_of.
  destruct (Qlt_bool 0 (p + r)) eqn:E; [|split; discriminate].
  apply Qlt_bool_iff in E. split.
  - apply Qle_shift_div_l; [done|]. nra.
  - apply Qle_shift_div_r; [done|]. nra.
Qed.

Lemma count_correct_polarity_range
    (pairs : list (SemanticObject * SemanticObject)) :
  (0 <= count_correct_polarity pairs <= len pairs)%Z.
Proof.
  unfold count_correct_polarity, len.
  assert (forall acc,
            (acc <= foldl (fun c '(gold_obj, pred_obj) =>
                             if String.eqb (polarity gold_obj)
                                           (polarity pred_obj)
                             then (c + 1)%Z else c) acc pairs
             <= acc + Z.of_nat (length pairs))%Z) as H.
  { induction pairs as [|[g p] l IH]; intros acc; simpl; [lia|].
    destruct (String.eqb (polarity g) (polarity p));
      [specialize (IH (acc + 1)%Z) | specialize (IH acc)]; lia. }
  specialize (H 0%Z). lia.
Qed.

Lemma count_correct_bucket_range
    (pairs : list (SemanticObject * SemanticObject)) :
  (0 <= count_correct_bucket pairs <= len pairs)%Z.
Proof.
  unfold count_correct_bucket, len.
  assert (forall acc,
            (acc <= foldl (fun c '(gold_obj, pred_obj) =>
                             if String.eqb (domain gold_obj) "emotion" then
                               if String.eqb (arousal_bucket gold_obj)
                                             (arousal_bucket pred_obj)
                               then (c + 1)%Z else c
                             else
                               if String.eqb (intensity_bucket gold_obj)
                                             (intensity_bucket pred_obj)
                               then (c + 1)%Z else c) acc pairs
             <= acc + Z.of_nat (length pairs))%Z) as H.
  { induction pairs as [|[g p] l IH]; intros acc; simpl; [lia|].
    destruct (String.eqb (domain g) "emotion");
      [destruct (String.eqb (arousal_bucket g) (arousal_bucket p))
      |destruct (String.eqb (intensity_bucket g) (intensity_bucket p))];
      first [specialize (IH (acc + 1)%Z); lia | specialize (IH acc); lia]. }
  specialize (H 0%Z). lia.
Qed.

Lemma count_valid_range (text : string) (pred : list SemanticObject) :
  (0 <= count_valid_evidence_spans text pred <= len pred)%Z.
Proof.
  rewrite count_valid_grounded. unfold len, grounded.
  pose proof (length_filter
                (fun p => py_in (evidence_span p) text = true) pred).
  lia.
Qed.

(** X11. Every ratio that [score_journal] reports lies between 0 and 1:
    precision, recall, f1, polarity accuracy, bucket accuracy and evidence
    coverage rate. *)
Theorem X11_scores_between_0_and_1 (self : Scorer) (journal_text : string)
    (gold pred : list SemanticObject) :
  exists s,
    score_journal self journal_text gold pred = Ok s /\
    (0 <= precision s <= 1)%Q /\ (0 <= recall s <= 1)%Q /\
    (0 <= f1 s <= 1)%Q /\
    (0 <= polarity_accuracy s <= 1)%Q /\ (0 <= bucket_accuracy s <= 1)%Q /\
    (0 <= evidence_coverage_rate s <= 1)%Q.
Proof.
  destruct (score_journal_total self journal_text gold pred)
    as (pairs & fps & fns & _ & Hs & _).
  eexists. split; [exact Hs|]. simpl.
  assert (0 <= len pairs)%Z by (unfold len; lia).
  assert (0 <= len fps)%Z by (unfold len; lia).
  assert (0 <= len fns)%Z by (unfold len; lia).
  assert (0 <= ratio (len pairs) (len pairs + len fps) <= 1)%Q as Hp
    by (apply ratio_range; lia).
  assert (0 <= ratio (len pairs) (len pairs + len fns) <= 1)%Q as Hr
    by (apply ratio_range; lia).
  split; [done|]. split; [done|]. split; [by apply f1_of_range|].
  split; [apply ratio_range, count_correct_polarity_range|].
  split; [apply ratio_range, count_correct_bucket_range|].
  apply ratio_range, count_valid_range.
Qed.

Lemma ratio_zero_numerator (b : Z) : (ratio 0 b == 0)%Q.
Proof.
  unfold ratio. destruct (0 <? b)%Z; [|reflexivity].
  unfold Qdiv. apply Qmult_0_l.
Qed.

Lemma length_filter_all {A : Type} (P : A -> Prop)
    `{forall x, Decision (P x)} (l : list A) :
  length (filter P l) = length l <-> Forall P l.
Proof.
  induction l as [|x l IH]; [by split|].
  rewrite filter_cons, Forall_cons.
  pose proof (length_filter P l) as Hle.
  destruct (decide (P x)) as [HP|HP]; simpl.
  - rewrite <- IH. split; [intros ?; split; [done|lia] | intros [_ ?]; lia].
  - split; [lia | tauto].
Qed.

Lemma length_filter_none {A : Type} (P : A -> Prop)
    `{forall x, Decision (P x)} (l : list A) :
  length (filter P l) = 0 <-> Forall (fun x => ~ P x) l.
Proof.
  induction l as [|x l IH]; [by split|].
  rewrite filter_cons, Forall_cons.
  destruct (decide (P x)) as [HP|HP]; simpl.
  - split; [lia | tauto].
  - rewrite IH. tauto.
Qed.

(** X13. The evidence coverage rate is 1 exactly when there is a predicted
    object and every predicted span occurs verbatim in the text, and it is 0
    exactly when no predicted span occurs in the text. *)
Theorem X13_full_and_zero_coverage (self : Scorer) (journal_text : string)
    (gold pred : list SemanticObject) :
  exists s,
    score_journal self journal_text gold pred = Ok s /\
    ((evidence_coverage_rate s == 1)%Q <->
     pred <> [] /\
     Forall (fun p => occurs_in (evidence_span p) journal_text) pred) /\
    ((evidence_coverage_rate s == 0)%Q <->
     Forall (fun p => ~ occurs_in (evidence_span p) journal_text) pred).
Proof.
  destruct (score_journal_total self journal_text gold pred)
    as (pairs & fps & fns & _ & Hs & _).
  eexists. split; [exact Hs|]. simpl.
  rewrite coverage_is_grounded_fraction. unfold grounded_fraction.
  destruct pred as [|p pred].
  { split; [split; [discriminate | by intros [? _]] | by split]. }
  set (l := p :: pred).
  assert (0 < len l)%Z as Hpos by (unfold len; simpl; lia).
  rewrite fraction_eq_1, fraction_eq_0 by done. unfold len, grounded.
  split.
  - rewrite Nat2Z.inj_iff, length_filter_all. split.
    + intros Hall. split; [done|]. eapply Forall_impl; [exact Hall|].
      intros x. apply py_in_spec.
    + intros [_ Hall]. eapply Forall_impl; [exact Hall|].
      intros x. apply py_in_spec.
  - change 0%Z with (Z.of_nat 0). rewrite Nat2Z.inj_iff, length_filter_none.
    split; intros Hall; (eapply Forall_impl; [exact Hall|]); intros x Hx Hn;
      apply Hx; by apply py_in_spec.
Qed.

(** ** The corpus aggregator in double precision *)

(** The double nearest to a positive int is not zero: the rounding of
    [SpecFloat] shifts out fewer bits than the mantissa has. *)

Lemma digits2_pos_lower (p : positive) :
  (2 ^ (Zpos (SpecFloat.digits2_pos p) - 1) <= Zpos p)%Z.
Proof.
  induction p as [p IH|p IH|]; simpl; [| |done].
  - rewrite Pos2Z.inj_succ.
    replace (Z.succ (Zpos (SpecFloat.digits2_pos p)) - 1)%Z
      with (Z.succ (Zpos (SpecFloat.digits2_pos p) - 1)) by lia.
    rewrite Z.pow_succ_r by lia. lia.
  - rewrite Pos2Z.inj_succ.
    replace (Z.succ (Zpos (SpecFloat.digits2_pos p)) - 1)%Z
      with (Z.succ (Zpos (SpecFloat.digits2_pos p) - 1)) by lia.
    rewrite Z.pow_succ_r by lia. lia.
Qed.

Lemma shr_1_half (mrs : SpecFloat.shr_record) :
  (0 <= SpecFloat.shr_m mrs)%Z ->
  SpecFloat.shr_m (SpecFloat.shr_1 mrs) = (SpecFloat.shr_m mrs / 2)%Z.
Proof.
  destruct mrs as [m r s]. simpl. intros Hm.
  destruct m as [|[p|p|]|p]; cbn [SpecFloat.shr_1 SpecFloat.shr_m];
    try reflexivity; try lia.
  - apply Z.div_unique with 1%Z; lia.
  - apply Z.div_unique with 0%Z; lia.
Qed.

Lemma iter_shr_1 (p : positive) (mrs : SpecFloat.shr_record) :
  (0 <= SpecFloat.shr_m mrs)%Z ->
  SpecFloat.shr_m (SpecFloat.iter_pos SpecFloat.shr_1 p mrs)
  = (SpecFloat.shr_m mrs / 2 ^ Zpos p)%Z.
Proof.
  revert mrs. induction p as [p IH|p IH|]; intros mrs Hm;
    cbn [SpecFloat.iter_pos].
  - pose proof (shr_1_half mrs Hm) as E1.
    assert (0 <= SpecFloat.shr_m (SpecFloat.shr_1 mrs))%Z as H1
      by (rewrite E1; apply Z.div_pos; lia).
    pose proof (IH _ H1) as E2.
    assert (0 <= SpecFloat.shr_m
                   (SpecFloat.iter_pos SpecFloat.shr_1 p
                      (SpecFloat.shr_1 mrs)))%Z as H2
      by (rewrite E2; apply Z.div_pos; lia).
    rewrite (IH _ H2), E2, E1, !Z.div_div by lia. f_equal.
    rewrite <- (Z.pow_1_r 2) at 1. rewrite <- !Z.pow_add_r by lia.
    f_equal. lia.
  - pose proof (IH _ Hm) as E1.
    assert (0 <= SpecFloat.shr_m
                   (SpecFloat.iter_pos SpecFloat.shr_1 p mrs))%Z as H1
      by (rewrite E1; apply Z.div_pos; lia).
    rewrite (IH _ H1), E1, !Z.div_div by lia. f_equal.
    rewrite <- Z.pow_add_r by lia. f_equal. lia.
  - by rewrite shr_1_half.
Qed.

(** Rounding a positive mantissa at an exponent above the smallest one
    leaves a positive mantissa. *)
Lemma shr_fexp_positive (m : positive) (e : Z) (l : SpecFloat.location) :
  (-1073 <= e)%Z ->
  let '(mrs, e') :=
    SpecFloat.shr_fexp Binary64.prec Binary64.emax (Zpos m) e l in
  (0 < SpecFloat.shr_m mrs)%Z /\ (e <= e')%Z.
Proof.
  intros He. unfold SpecFloat.shr_fexp, SpecFloat.shr. simpl SpecFloat.Zdigits2.
  set (d := Zpos (SpecFloat.digits2_pos m)).
  assert (SpecFloat.shr_m (SpecFloat.shr_record_of_loc (Zpos m) l) = Zpos m)
    as Hrec by (by destruct l as [|[]]).
  destruct (SpecFloat.fexp Binary64.prec Binary64.emax (d + e) - e)%Z
    as [|n|n] eqn:Hn; [rewrite Hrec; lia | | rewrite Hrec; lia].
  rewrite iter_shr_1 by (rewrite Hrec; lia). rewrite Hrec. split; [|lia].
  assert (Zpos n <= d - 1)%Z as Hle.
  { unfold SpecFloat.fexp, SpecFloat.emin, Binary64.prec, Binary64.emax in Hn.
    lia. }
  pose proof (digits2_pos_lower m) as Hlow. fold d in Hlow.
  assert (2 ^ Zpos n <= 2 ^ (d - 1))%Z by (apply Z.pow_le_mono_r; lia).
  apply Z.div_str_pos. split; [apply Z.pow_pos_nonneg; lia | lia].
Qed.

Lemma binary_round_aux_nonzero (s : bool) (m : positive) (e : Z)
    (l : SpecFloat.location) :
  (-1073 <= e)%Z ->
  match SpecFloat.binary_round_aux Binary64.prec Binary64.emax s (Zpos m) e l
  with
  | SpecFloat.S754_finite _ _ _ | SpecFloat.S754_infinity _ => True
  | _ => False
  end.
Proof.
  intros He. unfold SpecFloat.binary_round_aux.
  pose proof (shr_fexp_positive m e l He) as H1.
  destruct (SpecFloat.shr_fexp _ _ (Zpos m) e l) as [mrs' e'].
  destruct H1 as [Hm' He'].
  set (m1 := SpecFloat.round_nearest_even (SpecFloat.shr_m mrs')
               (SpecFloat.loc_of_shr_record mrs')).
  assert (0 < m1)%Z as Hm1.
  { unfold m1, SpecFloat.round_nearest_even.
    destruct (SpecFloat.loc_of_shr_record mrs') as [|[]]; try lia.
    destruct (Z.even _); lia. }
  destruct m1 as [|p1|p1] eqn:E1; try lia.
  pose proof (shr_fexp_positive p1 e' SpecFloat.loc_Exact ltac:(lia)) as H2.
  destruct (SpecFloat.shr_fexp _ _ (Zpos p1) e' _) as [mrs'' e''].
  destruct H2 as [Hm'' _].
  destruct (SpecFloat.shr_m mrs'') as [|p2|p2]; try lia.
  by destruct (e'' <=? _)%Z.
Qed.

Lemma float_of_int_positive (n : Z) (x : Binary64.float) :
  (0 < n)%Z -> Binary64.float_of_int n = Ok x ->
  exists m e, x = SpecFloat.S754_finite false m e.
Proof.
  intros Hn. destruct n as [|p|p]; try lia.
  unfold Binary64.float_of_int, SpecFloat.binary_normalize,
    SpecFloat.binary_round.
  destruct (SpecFloat.shl_align p 0 _) as [mz ez] eqn:Halign.
  assert (-1073 <= ez)%Z as Hez.
  { unfold SpecFloat.shl_align in Halign.
    destruct (SpecFloat.fexp _ _ _ - 0)%Z eqn:Hf;
      injection Halign as <- <-; try lia.
    unfold SpecFloat.fexp, SpecFloat.emin, Binary64.prec, Binary64.emax in *.
    lia. }
  pose proof (binary_round_aux_nonzero false mz ez SpecFloat.loc_Exact Hez)
    as Hnz.
  assert (forall y,
            SpecFloat.binary_round_aux Binary64.prec Binary64.emax false
              (Zpos mz) ez SpecFloat.loc_Exact = y ->
            match y with
            | SpecFloat.S754_finite s _ _ => s = false
            | _ => True
            end) as Hsign.
  { intros y <-. unfold SpecFloat.binary_round_aux.
    destruct (SpecFloat.shr_fexp _ _ (Zpos mz) ez _) as [a b].
    destruct (SpecFloat.shr_fexp _ _ _ b _) as [c d'].
    destruct (SpecFloat.shr_m c); try done. by destruct (_ <=? _)%Z. }
  destruct (SpecFloat.binary_round_aux _ _ _ _ _ _) as [s0|s0| |s0 m0 e0] eqn:E;
    try done.
  intros [= <-]. specialize (Hsign _ eq_refl). simpl in Hsign. subst s0.
  by eexists _, _.
Qed.

Lemma float_of_int_raises (n : Z) (e : PyError) :
  Binary64.float_of_int n = Raise e -> e = OverflowError.
Proof.
  unfold Binary64.float_of_int.
  destruct (SpecFloat.binary_normalize _ _ _ _ _); congruence.
Qed.

Lemma guarded_int_truediv_double (a b : Z) :
  match (if (0 <? b)%Z then Binary64.int_truediv a b else Ok Binary64.zero)
  with
  | Ok x => (b <= 0)%Z -> x = Binary64.zero
  | Raise e => e = OverflowError
  end.
Proof.
  destruct (Z.ltb_spec 0 b) as [Hb|Hb]; [|done].
  unfold Binary64.int_truediv.
  destruct (Z.eqb_spec b 0) as [->|_]; [lia|].
  destruct (a =? 0)%Z; [intros; lia|].
  destruct (SpecFloat.SFdiv _ _ _ _); try done; intros; lia.
Qed.

Lemma guarded_float_int_truediv_double (x : Binary64.float) (b : Z) :
  match (if (0 <? b)%Z then Binary64.float_int_truediv x b
         else Ok Binary64.zero)
  with
  | Ok y => (b <= 0)%Z -> y = Binary64.zero
  | Raise e => e = OverflowError
  end.
Proof.
  destruct (Z.ltb_spec 0 b) as [Hb|Hb]; [|done].
  unfold Binary64.float_int_truediv.
  destruct (Binary64.float_of_int b) as [y|e] eqn:Hy; simpl;
    [|by apply float_of_int_raises in Hy].
  destruct (float_of_int_positive b y Hb Hy) as (m & e & ->).
  simpl. intros; lia.
Qed.

Lemma guarded_f1_double (p r : Binary64.float) :
  exists v,
    (if Binary64.float_lt Binary64.zero (Binary64.float_add p r)
     then
       twice_precision ← Binary64.int_float_mul 2 p;
       Binary64.float_truediv (Binary64.float_mul twice_precision r)
                              (Binary64.float_add p r)
     else Ok Binary64.zero) = Ok v.
Proof.
  destruct (Binary64.float_lt _ _) eqn:Hlt; [|by eexists].
  unfold Binary64.int_float_mul.
  change (Binary64.float_of_int 2)
    with (Ok (SpecFloat.S754_finite false 4503599627370496 (-51))).
  simpl. unfold Binary64.float_truediv.
  destruct (Binary64.float_add p r) as [s|s| |s m e]; try done;
    destruct s; try done; by eexists.
Qed.

Lemma sum_float_raises {A : Type} (f : A -> result Binary64.float)
    (l : list A) (e : PyError) :
  (forall s e', f s = Raise e' -> e' = OverflowError) ->
  Binary64.sum_float f l = Raise e -> e = OverflowError.
Proof.
  intros Hf. unfold Binary64.sum_float. generalize Binary64.zero.
  induction l as [|s l IH]; intros total; simpl; [done|].
  destruct (f s) as [x|e'] eqn:Hs; simpl.
  - apply IH.
  - intros [= <-]. by apply (Hf s).
Qed.

Lemma float_int_mul_raises (x : Binary64.float) (n : Z) (e : PyError) :
  Binary64.float_int_mul x n = Raise e -> e = OverflowError.
Proof.
  unfold Binary64.float_int_mul.
  destruct (Binary64.float_of_int n) eqn:Hn; simpl; [done|].
  intros [= <-]. by apply float_of_int_raises in Hn.
Qed.

(** X14. In double arithmetic [overall_scores] raises nothing but
    [OverflowError], whatever the score dicts hold: no zero divisor reaches
    a division. When it returns, each ratio whose total denominator is not
    positive is 0.0. It does raise [OverflowError] on a count beyond the
    range of doubles, here 2^1024. *)
Theorem X14_overall_scores_raises_overflow_only
    (scores : list Binary64.JournalScore) :
  match Binary64.overall_scores scores with
  | Ok o =>
      ((sum_int Binary64.tp scores + sum_int Binary64.fp scores <= 0)%Z ->
       Binary64.overall_precision o = Binary64.zero) /\
      ((sum_int Binary64.tp scores + sum_int Binary64.fn scores <= 0)%Z ->
       Binary64.overall_recall o = Binary64.zero) /\
      ((sum_int Binary64.tp scores <= 0)%Z ->
       Binary64.overall_polarity_accuracy o = Binary64.zero /\
       Binary64.overall_bucket_accuracy o = Binary64.zero) /\
      ((sum_int (fun s => (Binary64.tp s + Binary64.fp s)%Z) scores <= 0)%Z ->
       Binary64.overall_evidence_coverage_rate o = Binary64.zero)
  | Raise e => e = OverflowError
  end /\
  Binary64.overall_scores [example_score_double (2 ^ 1024) Binary64.half]
  = Raise OverflowError.
Proof.
  split; [|vm_compute; reflexivity].
  unfold Binary64.overall_scores.
  pose proof (guarded_int_truediv_double (sum_int Binary64.tp scores)
                (sum_int Binary64.tp scores + sum_int Binary64.fp scores))
    as Hp.
  destruct (if (0 <? _ + sum_int Binary64.fp scores)%Z then _ else _)
    as [p|e]; cbn [mbind result_bind]; [|done].
  pose proof (guarded_int_truediv_double (sum_int Binary64.tp scores)
                (sum_int Binary64.tp scores + sum_int Binary64.fn scores))
    as Hr.
  destruct (if (0 <? _ + sum_int Binary64.fn scores)%Z then _ else _)
    as [r|e]; cbn [mbind result_bind]; [|done].
  destruct (guarded_f1_double p r) as [f Hf]. rewrite Hf. cbn [mbind result_bind].
  destruct (Binary64.sum_float
              (fun s => Binary64.float_int_mul (Binary64.polarity_accuracy s)
                                               (Binary64.tp s)) scores)
    as [tpc|e] eqn:Htpc; cbn [mbind result_bind];
    [|apply sum_float_raises in Htpc; [done|];
      intros s e'; apply float_int_mul_raises].
  pose proof (guarded_float_int_truediv_double tpc
                (sum_int Binary64.tp scores)) as Hpa.
  destruct (if (0 <? sum_int Binary64.tp scores)%Z
            then Binary64.float_int_truediv tpc _ else _)
    as [pa|e]; cbn [mbind result_bind]; [|done].
  destruct (Binary64.sum_float
              (fun s => Binary64.float_int_mul (Binary64.bucket_accuracy s)
                                               (Binary64.tp s)) scores)
    as [tbc|e] eqn:Htbc; cbn [mbind result_bind];
    [|apply sum_float_raises in Htbc; [done|];
      intros s e'; apply float_int_mul_raises].
  pose proof (guarded_float_int_truediv_double tbc
                (sum_int Binary64.tp scores)) as Hba.
  destruct (if (0 <? sum_int Binary64.tp scores)%Z
            then Binary64.float_int_truediv tbc _ else _)
    as [ba|e]; cbn [mbind result_bind]; [|done].
  destruct (Binary64.sum_float
              (fun s => Binary64.float_int_mul
                          (Binary64.evidence_coverage_rate s)
                          (Binary64.tp s + Binary64.fp s)) scores)
    as [tv|e] eqn:Htv; cbn [mbind result_bind];
    [|apply sum_float_raises in Htv; [done|];
      intros s e'; apply float_int_mul_raises].
  pose proof (guarded_float_int_truediv_double tv
                (sum_int (fun s => (Binary64.tp s + Binary64.fp s)%Z) scores))
    as Hcov.
  destruct (if (0 <? sum_int _ scores)%Z
            then Binary64.float_int_truediv tv _ else _)
    as [cov|e]; cbn [mbind result_bind]; [|done].
  repeat split; auto.
Qed.

(** ** The corpus aggregator *)

Lemma weighted_ratio_single (a c : Z) :
  (weighted_ratio (0 + ratio a c * inject_Z c) c == ratio a c)%Q.
Proof.
  unfold weighted_ratio, ratio. destruct (Z.ltb_spec 0 c); [|reflexivity].
  field. unfold Qeq. simpl. lia.
Qed.

(** X16. Aggregating the score of a single journal gives that journal's own
    precision, recall, f1, polarity accuracy, bucket accuracy and evidence
    coverage rate. *)
Theorem X16_overall_of_one_journal (self : Scorer) (journal_text : string)
    (gold pred : list SemanticObject) :
  exists s o,
    score_journal self journal_text gold pred = Ok s /\
    overall_scores [s] = Ok o /\
    overall_precision o = precision s /\
    overall_recall o = recall s /\
    overall_f1 o = f1 s /\
    (overall_polarity_accuracy o == polarity_accuracy s)%Q /\
    (overall_bucket_accuracy o == bucket_accuracy s)%Q /\
    (overall_evidence_coverage_rate o == evidence_coverage_rate s)%Q.
Proof.
  destruct (score_journal_total self journal_text gold pred)
    as (pairs & fps & fns & _ & Hs & _ & Hp).
  do 2 eexists. split; [exact Hs|]. split; [apply overall_scores_ok|].
  unfold overall_scores_of, sum_int, sum_float. simpl.
  split; [done|]. split; [done|]. split; [done|].
  split; [apply weighted_ratio_single|].
  split; [apply weighted_ratio_single|].
  rewrite Hp. apply weighted_ratio_single.
Qed.

(** ** Serialisation and loading *)

Lemma to_dict_lookup (o : SemanticObject) :
  to_dict o !! "domain" = Some (domain o) /\
  to_dict o !! "evidence_span" = Some (evidence_span o) /\
  to_dict o !! "polarity" = Some (polarity o) /\
  to_dict o !! "time_bucket" = Some (time_bucket o) /\
  to_dict o !! "arousal_bucket"
  = (if String.eqb (domain o) "emotion" then Some (arousal_bucket o)
     else None) /\
  to_dict o !! "intensity_bucket"
  = (if String.eqb (domain o) "emotion" then None
     else Some (intensity_bucket o)).
Proof.
  unfold to_dict. destruct (String.eqb (domain o) "emotion");
    repeat split; by simplify_map_eq.
Qed.

(** X18. [to_dict] emits the four shared fields and exactly one bucket: the
    arousal bucket and no intensity bucket for an emotion, the intensity
    bucket and no arousal bucket for any other domain; five keys in all. *)
Theorem X18_to_dict_emits_one_bucket (o : SemanticObject) :
  to_dict o !! "domain" = Some (domain o) /\
  to_dict o !! "evidence_span" = Some (evidence_span o) /\
  to_dict o !! "polarity" = Some (polarity o) /\
  to_dict o !! "time_bucket" = Some (time_bucket o) /\
  (if String.eqb (domain o) "emotion"
   then to_dict o !! "arousal_bucket" = Some (arousal_bucket o) /\
        to_dict o !! "intensity_bucket" = None
   else to_dict o !! "intensity_bucket" = Some (intensity_bucket o) /\
        to_dict o !! "arousal_bucket" = None) /\
  dom (to_dict o)
  = list_to_set ("domain" :: "evidence_span" :: "polarity" :: "time_bucket"
                 :: bucket_key o :: []) /\
  size (to_dict o) = 5.
Proof.
  destruct (to_dict_lookup o) as (Hd & He & Hp & Ht & Ha & Hi).
  do 4 (split; [done|]).
  unfold bucket_key. rewrite Ha, Hi. unfold to_dict.
  destruct (String.eqb (domain o) "emotion").
  - split; [done|]. split.
    + rewrite !dom_insert_L, dom_empty_L. simpl. set_solver.
    + rewrite !map_size_insert_None by by simplify_map_eq.
      by rewrite map_size_empty.
  - split; [done|]. split.
    + rewrite !dom_insert_L, dom_empty_L. simpl. set_solver.
    + rewrite !map_size_insert_None by by simplify_map_eq.
      by rewrite map_size_empty.
Qed.

Lemma item_getitem_Some (item : gmap string string) (k v : string) :
  item !! k = Some v -> item_getitem item k = Done v.
Proof. intros H. unfold item_getitem. by rewrite H. Qed.

Lemma to_dict_read_back (o : SemanticObject) :
  to_dict (read_back o) = to_dict o.
Proof.
  unfold to_dict, read_back. simpl.
  by destruct (String.eqb (domain o) "emotion").
Qed.

(** X19. Serialising an object and loading the dict again gives the object
    back, up to the bucket that [to_dict] leaves out, which comes back as
    "unknown"; serialising the result gives the same dict again. *)
Theorem X19_to_dict_then_load (o : SemanticObject) :
  semantic_object_of_item (to_dict o) = Done (read_back o) /\
  to_dict (read_back o) = to_dict o /\
  ((if String.eqb (domain o) "emotion"
    then intensity_bucket o = "unknown"
    else arousal_bucket o = "unknown") ->
   semantic_object_of_item (to_dict o) = Done o).
Proof.
  destruct (to_dict_lookup o) as (Hd & He & Hp & Ht & Ha & Hi).
  assert (semantic_object_of_item (to_dict o) = Done (read_back o)) as Hload.
  { unfold semantic_object_of_item, item_get.
    rewrite (item_getitem_Some _ _ _ Hd), (item_getitem_Some _ _ _ He),
            (item_getitem_Some _ _ _ Hp), (item_getitem_Some _ _ _ Ht).
    simpl. rewrite Ha, Hi. unfold read_back.
    by destruct (String.eqb (domain o) "emotion"). }
  split; [done|]. split; [apply to_dict_read_back|].
  intros Hunk. rewrite Hload. f_equal. unfold read_back. destruct o. simpl in *.
  destruct (String.eqb domain0 "emotion"); by rewrite Hunk.
Qed.

Lemma X19_to_dict_then_load_witness :
  semantic_object_of_item (to_dict example_gold) = Done example_gold.
Proof.
  apply (X19_to_dict_then_load example_gold). reflexivity.
Defined.

(** X20. Loading an item either builds the object whose four required fields
    are the item's and whose buckets are the item's or "unknown" when the
    item has none, or raises [KeyError] for a required key that the item
    lacks; it raises nothing else. *)
Theorem X20_loading_an_item (item : gmap string string) :
  match semantic_object_of_item item with
  | Done o =>
      item !! "domain" = Some (domain o) /\
      item !! "evidence_span" = Some (evidence_span o) /\
      item !! "polarity" = Some (polarity o) /\
      item !! "time_bucket" = Some (time_bucket o) /\
      intensity_bucket o = default "unknown" (item !! "intensity_bucket") /\
      arousal_bucket o = default "unknown" (item !! "arousal_bucket")
  | Failed e =>
      exists key, e = KeyError key /\ key ∈ required_keys /\ item !! key = None
  end.
Proof.
  unfold semantic_object_of_item, item_getitem, item_get, required_keys.
  destruct (item !! "domain") as [d|] eqn:Hd; simpl;
    [|exists "domain"; repeat split; [set_solver | done]].
  destruct (item !! "evidence_span") as [e|] eqn:He; simpl;
    [|exists "evidence_span"; repeat split; [set_solver | done]].
  destruct (item !! "polarity") as [p|] eqn:Hp; simpl;
    [|exists "polarity"; repeat split; [set_solver | done]].
  destruct (item !! "time_bucket") as [t|] eqn:Ht; simpl;
    [|exists "time_bucket"; repeat split; [set_solver | done]].
  repeat split; by destruct (item !! _).
Qed.

Lemma dict_setitem_fresh {V : Type} (d : pydict V) (k : string) (v : V) :
  k ∉ (fst <$> d) -> dict_setitem d k v = d ++ [(k, v)].
Proof.
  induction d as [|[k' v'] d IH]; intros Hk; simpl; [done|].
  simpl in Hk. apply not_elem_of_cons in Hk as [Hne Hk].
  destruct (String.eqb_spec k' k) as [->|_]; [done|]. by rewrite IH.
Qed.

Lemma load_items_loop (items : list (gmap string string))
    (acc out : list SemanticObject) :
  for_each (inl <$> items) load_item acc = Done out <->
  exists objs,
    out = acc ++ objs /\
    Forall2 (fun item o => semantic_object_of_item item = Done o) items objs.
Proof.
  revert acc; induction items as [|item items IH]; intros acc; simpl.
  - split.
    + intros [= <-]. exists []. by rewrite app_nil_r.
    + intros (objs & -> & ->%Forall2_nil_inv_l). by rewrite app_nil_r.
  - destruct (semantic_object_of_item item) as [o|e] eqn:Ho; simpl.
    + rewrite IH. split.
      * intros (objs & -> & Hobjs). exists (o :: objs).
        rewrite <- app_assoc. split; [done | by constructor].
      * intros (objs & -> & Hobjs).
        apply Forall2_cons_inv_l in Hobjs as (o' & objs' & Ho' & Hobjs' & ->).
        assert (o' = o) as -> by congruence.
        exists objs'. by rewrite <- app_assoc.
    + split; [done|]. intros (objs & _ & Hobjs).
      apply Forall2_cons_inv_l in Hobjs as (o' & objs' & Ho' & _).
      congruence.
Qed.

Lemma load_field_loop (v : FieldValue) (out : list SemanticObject) :
  for_each (iterate v) load_item [] = Done out <-> objects_of_field v out.
Proof.
  destruct v as [s|items]; simpl.
  - destruct s as [|c s]; simpl.
    + split; [by intros [= <-] | by intros [_ ->]].
    + split; [done | by intros [? _]].
  - rewrite load_items_loop. split.
    + by intros (objs & -> & Hobjs).
    + intros Hobjs. by exists out.
Qed.

Lemma load_journals_loop (key : string)
    (data : pydict (gmap string FieldValue))
    (acc out : pydict (list SemanticObject)) :
  NoDup ((fst <$> acc) ++ (fst <$> data)) ->
  for_each data
    (fun all_semantic_objects '(journal_id, journal_data) =>
       objects ←
         for_each
           (iterate (match journal_data !! key with
                     | Some v => v
                     | None => FItems []
                     end))
           load_item [];
       Done (dict_setitem all_semantic_objects journal_id objects))
    acc = Done out <->
  exists rest,
    out = acc ++ rest /\
    Forall2 (fun jd io =>
               fst io = fst jd /\
               objects_of_field (field_or_empty (snd jd) key) (snd io))
            data rest.
Proof.
  revert acc; induction data as [|[id jd] data IH]; intros acc Hnd; simpl.
  - split.
    + intros [= <-]. exists []. by rewrite app_nil_r.
    + intros (rest & -> & ->%Forall2_nil_inv_l). by rewrite app_nil_r.
  - fold (field_or_empty jd key).
    destruct (for_each (iterate (field_or_empty jd key)) load_item [])
      as [objs|e] eqn:Hobjs; simpl.
    + apply load_field_loop in Hobjs.
      simpl in Hnd. rewrite dict_setitem_fresh.
      2:{ apply NoDup_app in Hnd as (_ & Hdisj & _). intros Hin.
          apply (Hdisj id Hin). by left. }
      rewrite IH.
      2:{ rewrite fmap_app, <- app_assoc. simpl. done. }
      split.
      * intros (rest & -> & Hrest). exists ((id, objs) :: rest).
        rewrite <- app_assoc. split; [done|]. by constructor.
      * intros (rest & -> & Hrest).
        apply Forall2_cons_inv_l in Hrest
          as ([id' objs'] & rest' & [Hid Hf] & Hrest' & ->).
        simpl in Hid, Hf. subst id'.
        assert (objs' = objs) as ->.
        { apply load_field_loop in Hobjs, Hf. congruence. }
        exists rest'. by rewrite <- app_assoc.
    + split; [done|]. intros (rest & _ & Hrest).
      apply Forall2_cons_inv_l in Hrest as (io & rest' & [_ Hf] & _).
      simpl in Hf. apply load_field_loop in Hf. congruence.
Qed.

(** X21. [load_semantic_objects], on a dict of journals, returns exactly when
    every journal's field [key] loads: then it gives, journal by journal in
    the order of the dict and under the same journal id, the objects loaded
    from the items of that field in order, and no object for a journal
    without the field. *)
Theorem X21_load_semantic_objects (key : string)
    (data : pydict (gmap string FieldValue))
    (out : pydict (list SemanticObject)) :
  NoDup (fst <$> data) ->
  (load_semantic_objects data key = Done out <->
   Forall2 (fun jd io =>
              fst io = fst jd /\
              objects_of_field (field_or_empty (snd jd) key) (snd io))
           data out) /\
  (forall journal_data,
     journal_data !! key = None ->
     objects_of_field (field_or_empty journal_data key) []).
Proof.
  intros Hnd. split.
  - unfold load_semantic_objects. rewrite load_journals_loop by done.
    split; [by intros (rest & -> & Hrest) | intros H; by exists out].
  - intros jd Hk. unfold field_or_empty. rewrite Hk. constructor.
Qed.

Lemma X21_load_semantic_objects_witness :
  load_semantic_objects
    [("j1", {[ "items" := FItems [to_dict example_gold] ]});
     ("j2", ∅)] "items"
  = Done [("j1", [example_gold]); ("j2", [])].
Proof.
  assert (NoDup ["j1"; "j2"]) as Hnd by compute_done.
  apply (proj1 (X21_load_semantic_objects "items"
                  [("j1", {[ "items" := FItems [to_dict example_gold] ]});
                   ("j2", ∅)] _ Hnd)).
  repeat constructor.
Defined.

(** ** The scores depend on the serialised views only *)

Lemma to_dict_eq_fields (o o' : SemanticObject) :
  to_dict o = to_dict o' ->
  domain o = domain o' /\ evidence_span o = evidence_span o' /\
  polarity o = polarity o' /\
  (if String.eqb (domain o) "emotion"
   then arousal_bucket o = arousal_bucket o'
   else intensity_bucket o = intensity_bucket o').
Proof.
  intros Heq.
  destruct (to_dict_lookup o) as (Hd & He & Hp & _ & Ha & Hi).
  destruct (to_dict_lookup o') as (Hd' & He' & Hp' & _ & Ha' & Hi').
  rewrite Heq in Hd, He, Hp, Ha, Hi.
  assert (domain o = domain o') as Ed by congruence.
  split; [done|]. split; [congruence|]. split; [congruence|].
  rewrite <- Ed in Ha', Hi'.
  destruct (String.eqb (domain o) "emotion"); congruence.
Qed.

Lemma same_views_Forall2 (l l' : list SemanticObject) :
  to_dict <$> l = to_dict <$> l' <->
  Forall2 (fun o o' => to_dict o = to_dict o') l l'.
Proof. by rewrite list_eq_Forall2, Forall2_fmap. Qed.

Lemma candidates_of_gold_same_views (self : Scorer) (i : nat)
    (g g' : SemanticObject) (pred pred' : list SemanticObject) (k : nat) :
  to_dict g = to_dict g' ->
  Forall2 (fun o o' => to_dict o = to_dict o') pred pred' ->
  flat_map (fun jp : nat * SemanticObject =>
              candidate_of self i g (fst jp) (snd jp))
           (enumerate_from k pred)
  = flat_map (fun jp : nat * SemanticObject =>
                candidate_of self i g' (fst jp) (snd jp))
             (enumerate_from k pred').
Proof.
  intros (Hd & He & _)%to_dict_eq_fields Hp. revert k.
  induction Hp as [|p p' pred pred' Hpp _ IH]; intros k; simpl; [done|].
  rewrite IH. f_equal.
  apply to_dict_eq_fields in Hpp as (Hd' & He' & _).
  unfold candidate_of. by rewrite Hd, He, Hd', He'.
Qed.

Lemma candidate_pairs_same_views (self : Scorer)
    (gold gold' pred pred' : list SemanticObject) :
  Forall2 (fun o o' => to_dict o = to_dict o') gold gold' ->
  Forall2 (fun o o' => to_dict o = to_dict o') pred pred' ->
  candidate_pairs self gold pred = candidate_pairs self gold' pred'.
Proof.
  intros Hg Hp. unfold candidate_pairs.
  assert (forall n,
    flat_map (fun ig : nat * SemanticObject =>
                flat_map (fun jp : nat * SemanticObject =>
                            candidate_of self (fst ig) (snd ig)
                                         (fst jp) (snd jp))
                         (enumerate pred))
             (enumerate_from n gold)
    = flat_map (fun ig : nat * SemanticObject =>
                  flat_map (fun jp : nat * SemanticObject =>
                              candidate_of self (fst ig) (snd ig)
                                           (fst jp) (snd jp))
                           (enumerate pred'))
               (enumerate_from n gold')) as H; [|apply H].
  induction Hg as [|g g' gold gold' Hgg _ IH]; intros n; simpl; [done|].
  rewrite IH. f_equal. by apply candidates_of_gold_same_views.
Qed.

Lemma not_matched_same_views (l l' : list SemanticObject) (s : gset nat) :
  Forall2 (fun o o' => to_dict o = to_dict o') l l' ->
  Forall2 (fun o o' => to_dict o = to_dict o')
          (not_matched l s) (not_matched l' s).
Proof.
  intros Hl. unfold not_matched, enumerate. generalize 0.
  induction Hl as [|o o' l l' Ho _ IH]; intros n; simpl; [constructor|].
  rewrite !filter_cons. simpl.
  destruct (decide (n ∉ s)); simpl; [constructor; [done|]|]; apply IH.
Qed.

Lemma Forall2_same_positions {A B C : Type} (R : A -> B -> Prop)
    (R' : A -> C -> Prop) (S : B -> C -> Prop) (l : list A) (k : list B)
    (k' : list C) :
  Forall (fun x => forall y z, R x y -> R' x z -> S y z) l ->
  Forall2 R l k -> Forall2 R' l k' -> Forall2 S k k'.
Proof.
  intros Hall Hk. revert k'.
  induction Hk as [|x y l k Hxy _ IH]; intros k' Hk'.
  - apply Forall2_nil_inv_l in Hk' as ->. constructor.
  - apply Forall2_cons_inv_l in Hk' as (z & k'' & Hxz & Hk'' & ->).
    apply Forall_cons in Hall as [Hx Hall]. constructor; [by apply Hx|].
    by apply IH.
Qed.

(** Two pairs of objects with the same views. *)
Lemma count_correct_polarity_same_views
    (pairs pairs' : list (SemanticObject * SemanticObject)) :
  Forall2 (fun gp gp' => to_dict (fst gp) = to_dict (fst gp') /\
                         to_dict (snd gp) = to_dict (snd gp'))
          pairs pairs' ->
  count_correct_polarity pairs = count_correct_polarity pairs'.
Proof.
  unfold count_correct_polarity. intros Hv. generalize 0%Z.
  induction Hv as [|[g p] [g' p'] l l' [Hg Hp] _ IH]; intros acc; simpl;
    [done|].
  simpl in Hg, Hp.
  apply to_dict_eq_fields in Hg as (_ & _ & Hg & _).
  apply to_dict_eq_fields in Hp as (_ & _ & Hp & _).
  rewrite Hg, Hp. apply IH.
Qed.

Lemma count_correct_bucket_same_views
    (pairs pairs' : list (SemanticObject * SemanticObject)) :
  Forall (fun gp => domain (fst gp) = domain (snd gp)) pairs ->
  Forall2 (fun gp gp' => to_dict (fst gp) = to_dict (fst gp') /\
                         to_dict (snd gp) = to_dict (snd gp'))
          pairs pairs' ->
  count_correct_bucket pairs = count_correct_bucket pairs'.
Proof.
  unfold count_correct_bucket. intros Hdom Hv. generalize 0%Z.
  induction Hv as [|[g p] [g' p'] l l' [Hg Hp] _ IH]; intros acc; simpl;
    [done|].
  apply Forall_cons in Hdom as [Hd Hdom]. simpl in Hg, Hp, Hd.
  apply to_dict_eq_fields in Hg as (Hdg & _ & _ & Hbg).
  apply to_dict_eq_fields in Hp as (Hdp & _ & _ & Hbp).
  rewrite <- Hd in Hbp. rewrite <- Hdg.
  destruct (String.eqb (domain g) "emotion");
    rewrite Hbg, Hbp; by apply IH.
Qed.

Lemma count_valid_same_views (text : string)
    (pred pred' : list SemanticObject) :
  Forall2 (fun o o' => to_dict o = to_dict o') pred pred' ->
  count_valid_evidence_spans text pred = count_valid_evidence_spans text pred'.
Proof.
  unfold count_valid_evidence_spans. intros Hv. generalize 0%Z.
  induction Hv as [|o o' l l' Ho _ IH]; intros acc; simpl; [done|].
  apply to_dict_eq_fields in Ho as (_ & He & _). rewrite He. apply IH.
Qed.

(** X22. The scores depend on the objects only through what [to_dict]
    emits: two gold lists with the same dicts and two predicted lists with
    the same dicts get the same result from [score_journal]. In particular
    the bucket that [to_dict] leaves out of an object plays no part. *)
Theorem X22_scores_depend_on_dicts_only (self : Scorer)
    (journal_text : string) (gold gold' pred pred' : list SemanticObject) :
  to_dict <$> gold = to_dict <$> gold' ->
  to_dict <$> pred = to_dict <$> pred' ->
  score_journal self journal_text gold pred
  = score_journal self journal_text gold' pred'.
Proof.
  intros Hg%same_views_Forall2 Hp%same_views_Forall2.
  destruct (committed_pairs_of self gold pred)
    as (pairs & fps & fns & Hm & Hpairs & -> & ->).
  destruct (committed_pairs_of self gold' pred')
    as (pairs' & fps' & fns' & Hm' & Hpairs' & -> & ->).
  unfold committed_candidates, sorted_candidates in Hpairs', Hm'.
  rewrite <- (candidate_pairs_same_views self gold gold' pred pred' Hg Hp)
    in Hpairs', Hm'.
  fold (sorted_candidates self gold pred) in Hpairs', Hm'.
  fold (committed_candidates self gold pred) in Hpairs', Hm'.
  rewrite (score_journal_ok _ _ _ _ _ _ _ Hm),
          (score_journal_ok _ _ _ _ _ _ _ Hm').
  set (c := committed_candidates self gold pred) in *.
  assert (Forall2 (fun gp gp' => to_dict (fst gp) = to_dict (fst gp') /\
                                 to_dict (snd gp) = to_dict (snd gp'))
                  pairs pairs') as Hv.
  { eapply Forall2_same_positions; [|exact Hpairs|exact Hpairs'].
    apply Forall_forall. intros m _ [g p] [g' p'] [H1 H2] [H1' H2'].
    simpl in *. split.
    - exact (Forall2_lookup_lr _ gold gold' _ _ _ Hg H1 H1').
    - exact (Forall2_lookup_lr _ pred pred' _ _ _ Hp H2 H2'). }
  assert (Forall (fun gp => domain (fst gp) = domain (snd gp)) pairs) as Hdom.
  { eapply Forall2_Forall_r; [exact Hpairs|].
    apply Forall_forall. intros m Hin [g p] [H1 H2]. simpl in *.
    apply committed_is_candidate, elem_of_candidate_pairs in Hin
      as (g0 & p0 & Hg0 & Hp0 & Hd & _). congruence. }
  pose proof (not_matched_same_views pred pred'
                (list_to_set (pm_pred <$> c)) Hp) as Hfps.
  pose proof (not_matched_same_views gold gold'
                (list_to_set (pm_gold <$> c)) Hg) as Hfns.
  f_equal. unfold journal_score_of, len.
  rewrite <- (Forall2_length _ _ _ Hv), <- (Forall2_length _ _ _ Hfps),
          <- (Forall2_length _ _ _ Hfns), <- (Forall2_length _ _ _ Hp).
  rewrite <- (count_correct_polarity_same_views _ _ Hv),
          <- (count_correct_bucket_same_views _ _ Hdom Hv),
          <- (count_valid_same_views journal_text _ _ Hp).
  apply same_views_Forall2 in Hfps, Hfns. rewrite Hfps, Hfns.
  f_equal. apply list_eq_Forall2, Forall2_fmap.
  eapply Forall2_impl; [exact Hv|]. intros gp gp' [H1 H2]. by rewrite H1, H2.
Qed.

Lemma X22_scores_depend_on_dicts_only_witness :
  score_journal Scorer_default "no pain today" [example_gold] [example_pred]
  = score_journal Scorer_default "no pain today"
      [{| domain := "symptom"; evidence_span := "sharp stomach pain";
          polarity := "present"; intensity_bucket := "high";
          arousal_bucket := "low"; time_bucket := "today" |}]
      [example_pred].
Proof.
  apply X22_scores_depend_on_dicts_only; reflexivity.
Defined.

(** ** Loading the lines of a file *)

Lemma dict_lookup_setitem {V : Type} (d : pydict V) (k k' : string) (v : V) :
  dict_lookup (dict_setitem d k v) k'
  = if String.eqb k k' then Some v else dict_lookup d k'.
Proof.
  induction d as [|[k0 v0] d IH]; simpl.
  - done.
  - destruct (String.eqb_spec k0 k) as [->|Hne]; simpl.
    + by destruct (String.eqb k k').
    + rewrite IH. destruct (String.eqb_spec k0 k') as [->|_]; [|done].
      destruct (String.eqb_spec k k'); [congruence | done].
Qed.

Lemma dict_lookup_app {V : Type} (d1 d2 : pydict V) (k : string) :
  dict_lookup (d1 ++ d2) k
  = match dict_lookup d1 k with
    | Some v => Some v
    | None => dict_lookup d2 k
    end.
Proof.
  induction d1 as [|[k0 v0] d1 IH]; simpl; [done|].
  by destruct (String.eqb k0 k).
Qed.

Lemma dict_setitem_keys {V : Type} (d : pydict V) (k : string) (v : V) :
  NoDup (fst <$> d) -> NoDup (fst <$> dict_setitem d k v).
Proof.
  induction d as [|[k0 v0] d IH]; simpl; intros Hnd.
  - apply NoDup_singleton.
  - apply NoDup_cons in Hnd as [Hk0 Hnd].
    destruct (String.eqb_spec k0 k) as [->|Hne]; simpl.
    + by apply NoDup_cons.
    + apply NoDup_cons. split; [|by apply IH].
      intros Hin. apply Hk0. clear IH Hnd Hk0.
      induction d as [|[k1 v1] d IH]; simpl in *.
      * apply list_elem_of_singleton in Hin. congruence.
      * destruct (String.eqb_spec k1 k) as [->|_]; simpl in *; [done|].
        apply elem_of_cons in Hin as [->|Hin]; [by left|].
        right. by apply IH.
Qed.

Lemma load_lines_loop {R : Type} (json_loads : string -> outcome R)
    (journal_id_of : R -> outcome string) (lines : list string)
    (acc out : pydict R) :
  for_each lines
    (fun data_by_journal line =>
       data ← json_loads line;
       journal_id ← journal_id_of data;
       Done (dict_setitem data_by_journal journal_id data))
    acc = Done out ->
  exists parsed : pydict R,
    Forall2 (fun line ir => json_loads line = Done (snd ir) /\
                            journal_id_of (snd ir) = Done (fst ir))
            lines parsed /\
    (NoDup (fst <$> acc) -> NoDup (fst <$> out)) /\
    forall id,
      dict_lookup out id
      = match dict_lookup (reverse parsed) id with
        | Some r => Some r
        | None => dict_lookup acc id
        end.
Proof.
  revert acc; induction lines as [|line lines IH]; intros acc; simpl.
  - intros [= <-]. exists []. split; [constructor|]. by split.
  - destruct (json_loads line) as [r|e] eqn:Hr; simpl; [|done].
    destruct (journal_id_of r) as [k|e] eqn:Hk; simpl; [|done].
    intros Hloop. apply IH in Hloop as (parsed & Hparsed & Hnd & Hlook).
    exists ((k, r) :: parsed). split; [by constructor|]. split.
    + intros Hacc. by apply Hnd, dict_setitem_keys.
    + intros id. rewrite Hlook, reverse_cons, dict_lookup_app,
        dict_lookup_setitem. simpl.
      destruct (dict_lookup (reverse parsed) id); [done|].
      by destruct (String.eqb k id).
Qed.

(** X23. When [load_data_from_jsonl] returns, every line was parsed and had a
    journal id, the journal ids of the result are distinct, and each id
    holds the record of the last line that carries it. *)
Theorem X23_last_line_of_an_id_wins {R : Type}
    (json_loads : string -> outcome R) (journal_id_of : R -> outcome string)
    (lines : list string) (out : pydict R) :
  load_data_from_jsonl json_loads journal_id_of lines = Done out ->
  exists parsed : pydict R,
    Forall2 (fun line ir => json_loads line = Done (snd ir) /\
                            journal_id_of (snd ir) = Done (fst ir))
            lines parsed /\
    NoDup (fst <$> out) /\
    forall id, dict_lookup out id = dict_lookup (reverse parsed) id.
Proof.
  intros Hload. apply load_lines_loop in Hload
    as (parsed & Hparsed & Hnd & Hlook).
  exists parsed. split; [done|]. split; [apply Hnd; constructor|].
  intros id. rewrite Hlook. by destruct (dict_lookup (reverse parsed) id).
Qed.

Lemma X23_last_line_of_an_id_wins_witness :
  exists out : list (string * (string * string)),
    load_data_from_jsonl
      (fun line => Done (String.substring 0 1 line, line))
      (fun r : string * string => Done (fst r)) ["a1"; "b1"; "a2"]
    = Done out /\
    NoDup (fst <$> out) /\
    dict_lookup out "a" = Some ("a", "a2").
Proof.
  eexists. split; [reflexivity|].
  destruct (X23_last_line_of_an_id_wins
              (fun line => Done (String.substring 0 1 line, line))
              (fun r : string * string => Done (fst r)) ["a1"; "b1"; "a2"] _
              eq_refl) as (parsed & Hparsed & Hnd & Hlook).
  split; [exact Hnd|]. reflexivity.
Defined.

(** ** The evaluation loop of [main] *)

Lemma dynamic_count_valid_string (t : string) (pred : list SemanticObject) :
  Dynamic.count_valid_evidence_spans (JString t) pred
  = Done (count_valid_evidence_spans t pred).
Proof.
  unfold Dynamic.count_valid_evidence_spans, count_valid_evidence_spans.
  generalize 0%Z. induction pred as [|p pred IH]; intros acc; simpl; [done|].
  apply IH.
Qed.

Lemma dynamic_count_valid_cases (text : JSON) (pred : list SemanticObject) :
  match Dynamic.count_valid_evidence_spans text pred with
  | Done _ => True
  | Failed e => e = TypeError /\ not_iterable text /\ pred <> []
  end.
Proof.
  unfold Dynamic.count_valid_evidence_spans. generalize 0%Z.
  destruct pred as [|p pred]; intros acc; [done|].
  assert ((forall span, exists b, json_contains span text = Done b) ->
          forall l acc',
            exists v,
              for_each l
                (fun valid_evidence_spans pred_obj =>
                   found ← json_contains (evidence_span pred_obj) text;
                   Done (if found : bool then (valid_evidence_spans + 1)%Z
                         else valid_evidence_spans))
                acc' = Done v) as Hiter.
  { intros Hb l. induction l as [|q l IH]; intros acc'; simpl; [by eexists|].
    destruct (Hb (evidence_span q)) as [b ->]. simpl. apply IH. }
  destruct text; simpl; try done;
    match goal with
    | |- context [for_each pred ?body ?a] =>
        destruct (Hiter ltac:(intros; simpl; by eexists) pred a) as [v Hv];
        simpl in Hv; by rewrite Hv
    end.
Qed.

Lemma dynamic_score_journal_spec (self : Scorer) (text : JSON)
    (gold pred : list SemanticObject) pairs fps fns :
  _match_objects self gold pred = Ok (pairs, fps, fns) ->
  Dynamic.score_journal self text gold pred
  = (valid ← Dynamic.count_valid_evidence_spans text pred;
     let p := ratio (len pairs) (len pairs + len fps) in
     let r := ratio (len pairs) (len pairs + len fns) in
     Done {| tp := len pairs;
             fp := len fps;
             fn := len fns;
             precision := p;
             recall := r;
             f1 := f1_of p r;
             polarity_accuracy :=
               ratio (count_correct_polarity pairs) (len pairs);
             bucket_accuracy :=
               ratio (count_correct_bucket pairs) (len pairs);
             evidence_coverage_rate := ratio valid (len pred);
             score_matched_pairs :=
               (fun gp => (to_dict (fst gp), to_dict (snd gp))) <$> pairs;
             false_positives := to_dict <$> fps;
             false_negatives := to_dict <$> fns |}).
Proof.
  intros Hm. unfold Dynamic.score_journal. rewrite Hm. simpl.
  rewrite !guarded_int_truediv. simpl. rewrite guarded_f1. simpl.
  destruct (Dynamic.count_valid_evidence_spans text pred) as [v|e]; simpl;
    [|done].
  by rewrite guarded_int_truediv.
Qed.

Lemma dynamic_score_journal_string (self : Scorer) (t : string)
    (gold pred : list SemanticObject) :
  Dynamic.score_journal self (JString t) gold pred
  = of_result (score_journal self t gold pred).
Proof.
  destruct (score_journal_total self t gold pred)
    as (pairs & fps & fns & Hm & Hs & _).
  rewrite Hs, (dynamic_score_journal_spec _ _ _ _ _ _ _ Hm),
    dynamic_count_valid_string.
  reflexivity.
Qed.

Lemma dynamic_score_journal_cases (self : Scorer) (text : JSON)
    (gold pred : list SemanticObject) :
  match Dynamic.score_journal self text gold pred with
  | Done _ => True
  | Failed e => e = TypeError /\ not_iterable text /\ pred <> []
  end.
Proof.
  destruct (score_journal_total self "" gold pred)
    as (pairs & fps & fns & Hm & _).
  rewrite (dynamic_score_journal_spec _ _ _ _ _ _ _ Hm).
  pose proof (dynamic_count_valid_cases text pred) as H.
  by destruct (Dynamic.count_valid_evidence_spans text pred).
Qed.

Lemma main_loop_from (journals : pydict (gmap string JSON))
    (gold pred : pydict (list SemanticObject))
    (acc_scores : list JournalScore) (acc_out : list PerJournalOutput) :
  match
    for_each journals
      (fun acc '(journal_id, journal_entry_data) =>
         let '(all_journal_scores, per_journal_scores_output) := acc in
         journal_text ← record_getitem journal_entry_data "text";
         let gold_objs := dict_get gold journal_id [] in
         let predicted_objs := dict_get pred journal_id [] in
         score ← Dynamic.score_journal Scorer_default journal_text gold_objs
                                       predicted_objs;
         Done (all_journal_scores ++ [score],
               per_journal_scores_output
                 ++ [per_journal_output journal_id score]))
      (acc_scores, acc_out)
  with
  | Done (scores, outs) =>
      exists ss,
        scores = acc_scores ++ ss /\
        outs = acc_out ++ zip_with per_journal_output (fst <$> journals) ss /\
        Forall2 (fun jr s =>
                   exists text,
                     snd jr !! "text" = Some text /\
                     Dynamic.score_journal Scorer_default text
                       (dict_get gold (fst jr) []) (dict_get pred (fst jr) [])
                     = Done s)
                journals ss
  | Failed e =>
      Exists (fun jr =>
                match snd jr !! "text" with
                | None => e = KeyError "text"
                | Some text =>
                    e = TypeError /\ not_iterable text /\
                    dict_get pred (fst jr) [] <> []
                end)
             journals
  end.
Proof.
  revert acc_scores acc_out.
  induction journals as [|[journal_id data] journals IH];
    intros acc_scores acc_out; simpl.
  - exists []. rewrite !app_nil_r. repeat split. constructor.
  - unfold record_getitem.
    destruct (data !! "text") as [text|] eqn:Htext; simpl.
    + pose proof (dynamic_score_journal_cases Scorer_default text
                    (dict_get gold journal_id [])
                    (dict_get pred journal_id [])) as Hcases.
      destruct (Dynamic.score_journal Scorer_default text
                  (dict_get gold journal_id []) (dict_get pred journal_id []))
        as [s|e] eqn:Hs; simpl.
      * specialize (IH (acc_scores ++ [s])
                       (acc_out ++ [per_journal_output journal_id s])).
        destruct (for_each journals _ _) as [[scores outs]|e].
        -- destruct IH as (ss & -> & -> & Hss).
           exists (s :: ss). rewrite <- !app_assoc. simpl.
           repeat split. constructor; [|done]. exists text. by split.
        -- by right.
      * left. simpl. by rewrite Htext.
    + left. simpl. by rewrite Htext.
Qed.

Lemma main_loop_spec (journals : pydict (gmap string JSON))
    (gold pred : pydict (list SemanticObject)) :
  match main_loop journals gold pred with
  | Done (scores, outs) =>
      outs = zip_with per_journal_output (fst <$> journals) scores /\
      Forall2 (fun jr s =>
                 exists text,
                   snd jr !! "text" = Some text /\
                   Dynamic.score_journal Scorer_default text
                     (dict_get gold (fst jr) []) (dict_get pred (fst jr) [])
                   = Done s)
              journals scores
  | Failed e =>
      Exists (fun jr =>
                match snd jr !! "text" with
                | None => e = KeyError "text"
                | Some text =>
                    e = TypeError /\ not_iterable text /\
                    dict_get pred (fst jr) [] <> []
                end)
             journals
  end.
Proof.
  unfold main_loop.
  pose proof (main_loop_from journals gold pred [] []) as H.
  destruct (for_each journals _ _) as [[scores outs]|e]; [|done].
  by destruct H as (ss & -> & -> & Hss).
Qed.

(** X24. On gold and predicted objects whose fields are strings, as
    [SemanticObject.__init__] declares them, and journal records that hold
    any JSON values, the evaluation of [main] fails in two ways only: with
    [KeyError] on a journal record without the key "text", and with
    [TypeError] on a record whose "text" is [None], a [bool] or a number
    while the journal has a predicted object. When it returns there is one
    compact record per journal, in the order of the journals and under
    their ids, made from the score of the record's text against the gold
    and predicted objects filed under its id (none when the id is absent);
    for a text that is a string this is the score that [score_journal]
    gives on strings; and the summary is [overall_scores] of these
    scores. *)
Theorem X24_main_scores_every_journal
    (journals : pydict (gmap string JSON))
    (gold pred : pydict (list SemanticObject)) :
  match main_evaluate journals gold pred with
  | Done (summary, outs) =>
      exists scores,
        Forall2 (fun jr s =>
                   exists text,
                     snd jr !! "text" = Some text /\
                     Dynamic.score_journal Scorer_default text
                       (dict_get gold (fst jr) []) (dict_get pred (fst jr) [])
                     = Done s /\
                     forall t,
                       text = JString t ->
                       score_journal Scorer_default t
                         (dict_get gold (fst jr) [])
                         (dict_get pred (fst jr) [])
                       = Ok s)
                journals scores /\
        outs = zip_with per_journal_output (fst <$> journals) scores /\
        out_journal_id <$> outs = fst <$> journals /\
        overall_scores scores = Ok summary
  | Failed e =>
      Exists (fun jr =>
                match snd jr !! "text" with
                | None => e = KeyError "text"
                | Some text =>
                    e = TypeError /\ not_iterable text /\
                    dict_get pred (fst jr) [] <> []
                end)
             journals
  end.
Proof.
  unfold main_evaluate.
  pose proof (main_loop_spec journals gold pred) as H.
  destruct (main_loop journals gold pred) as [[scores outs]|e]; simpl;
    [|done].
  destruct H as [-> Hss]. rewrite overall_scores_ok. simpl.
  exists scores. split; [|split; [done|]].
  - eapply Forall2_impl; [exact Hss|]. intros jr s (text & Htext & Hs).
    exists text. split; [done|]. split; [done|]. intros t ->.
    rewrite dynamic_score_journal_string in Hs.
    destruct (score_journal Scorer_default t _ _); simpl in Hs; congruence.
  - split; [|apply overall_scores_ok].
    clear -Hss. induction Hss as [|[id data] s journals scores _ _ IH];
      [done|].
    change (fst (id, data) :: (out_journal_id <$>
              zip_with per_journal_output (fst <$> journals) scores)
            = fst (id, data) :: (fst <$> journals)).
    by rewrite IH.
Qed.

(** X25. A journal whose id has neither gold nor predicted objects gets a
    record of zeros: no counts, and every ratio 0. *)
Theorem X25_unannotated_journal_scores_zero
    (journals : pydict (gmap string JSON))
    (gold pred : pydict (list SemanticObject))
    (scores : list JournalScore) (outs : list PerJournalOutput) :
  main_loop journals gold pred = Done (scores, outs) ->
  Forall2 (fun jr out =>
             dict_lookup gold (fst jr) = None ->
             dict_lookup pred (fst jr) = None ->
             out = {| out_journal_id := fst jr;
                      out_tp := 0; out_fp := 0; out_fn := 0;
                      out_precision := 0; out_recall := 0; out_f1 := 0;
                      out_polarity_accuracy := 0; out_bucket_accuracy := 0;
                      out_evidence_coverage_rate := 0 |})
          journals outs.
Proof.
  intros Hloop. pose proof (main_loop_spec journals gold pred) as H.
  rewrite Hloop in H. destruct H as [-> Hss]. clear Hloop.
  induction Hss as [|[id data] s journals scores Hs _ IH]; simpl;
    constructor; [|done].
  simpl in *. intros Hg Hp. destruct Hs as (text & _ & Hs).
  unfold dict_get in Hs. rewrite Hg, Hp in Hs.
  rewrite (dynamic_score_journal_spec _ _ [] [] [] [] []) in Hs
    by reflexivity.
  simpl in Hs. by injection Hs as <-.
Qed.

Lemma X25_unannotated_journal_scores_zero_witness :
  exists scores outs,
    main_loop [("j1", {["text" := JString "a quiet day"]})] [] []
    = Done (scores, outs) /\
    Forall2 (fun jr out =>
               dict_lookup ([] : pydict (list SemanticObject)) (fst jr)
               = None ->
               dict_lookup ([] : pydict (list SemanticObject)) (fst jr)
               = None ->
               out = {| out_journal_id := fst jr;
                        out_tp := 0; out_fp := 0; out_fn := 0;
                        out_precision := 0; out_recall := 0; out_f1 := 0;
                        out_polarity_accuracy := 0; out_bucket_accuracy := 0;
                        out_evidence_coverage_rate := 0 |})
            [("j1", ({["text" := JString "a quiet day"]} : gmap string JSON))]
            outs.
Proof.
  destruct (main_loop [("j1", {["text" := JString "a quiet day"]})] [] [])
    as [[scores outs]|e] eqn:E; [|vm_compute in E; discriminate].
  exists scores, outs. split; [reflexivity|].
  exact (X25_unannotated_journal_scores_zero _ _ _ _ _ E).
Defined.

(** X26. With the placeholder extraction, which returns no object, a journal
    is scored without error: every gold object is a false negative and
    precision, recall, F1, both accuracies and the coverage are 0. *)
Theorem X26_placeholder_extraction_scores_zero (self : Scorer)
    (journal_entry : string) (gold : list SemanticObject) :
  exists s,
    score_journal self journal_entry gold
                  (extract_semantic_objects journal_entry) = Ok s /\
    tp s = 0%Z /\ fp s = 0%Z /\ fn s = len gold /\
    false_negatives s = to_dict <$> gold /\
    precision s = 0%Q /\ (recall s == 0)%Q /\ f1 s = 0%Q /\
    polarity_accuracy s = 0%Q /\ bucket_accuracy s = 0%Q /\
    evidence_coverage_rate s = 0%Q.
Proof.
  unfold extract_semantic_objects.
  assert (_match_objects self gold [] = Ok ([], [], gold)) as Hm.
  { apply match_objects_no_candidate. unfold candidate_pairs.
    by apply flat_map_nil. }
  rewrite (score_journal_ok _ _ _ _ _ _ _ Hm). eexists. split; [reflexivity|].
  simpl. repeat split.
  - apply ratio_zero_numerator.
  - apply f1_of_zero. etransitivity; [apply Qplus_0_l|].
    apply ratio_zero_numerator.
Qed.
